(** * YouTube playlist organizer: content analysis and reorganization plan

    A shallow embedding of [PlaylistOrganizer] (playlist_organizer.py):
    the category registry, [analyze_playlist_content],
    [categorize_playlists] and [generate_reorganization_plan], with the
    properties of the classification-and-decision engine.

    Conventions of the embedding
    - a Python [str] is the list of its code points ([str := list N]);
    - a Python [int] is a [Z]; a length is [Z.of_nat (length _)];
    - a Python [float] is the exact rational it approximates ([Q]);
    - a Python [dict] that is iterated is an association list in insertion
      order; [dict.get(key, default)] on an input record is [get] on an
      optional field;
    - [str.lower] (the Unicode case mapping of the runtime), [round] on
      floats and the clock are not code of the repository: they are
      parameters of the development. *)

From Stdlib Require Import Ascii String.
From Stdlib Require Import List Bool Arith ZArith NArith Lia.
From Stdlib Require Import QArith Qminmax.
From Stdlib Require Import Permutation.
Import ListNotations.

Set Implicit Arguments.

(* ===================================================================== *)
(** ** Text: code points, literals, whitespace                            *)
(* ===================================================================== *)

Definition str := list N.

Definition str_eq_dec : forall a b : str, {a = b} + {a <> b} :=
  list_eq_dec N.eq_dec.

Definition str_eqb (a b : str) : bool :=
  if str_eq_dec a b then true else false.

(** Source literals are written as UTF-8 strings and decoded to code
    points: [pending] continuation bytes are still expected and [acc]
    holds the bits read so far. *)
Fixpoint utf8_decode (pending : nat) (acc : N) (bs : list N) : str :=
  match bs with
  | [] => []
  | b :: rest =>
      match pending with
      | O =>
          if (b <? 0x80)%N then b :: utf8_decode 0 0%N rest
          else if (b <? 0xE0)%N then utf8_decode 1 (b - 0xC0)%N rest
          else if (b <? 0xF0)%N then utf8_decode 2 (b - 0xE0)%N rest
          else utf8_decode 3 (b - 0xF0)%N rest
      | S O => (acc * 64 + (b - 0x80))%N :: utf8_decode 0 0%N rest
      | S k => utf8_decode k (acc * 64 + (b - 0x80))%N rest
      end
  end.

Definition u (s : string) : str :=
  utf8_decode 0 0%N (List.map N_of_ascii (list_ascii_of_string s)).

Definition SPACE : N := 0x20%N.

(** [str.isspace] on one code point: the ASCII table of CPython
    (TAB..CR, FS..US, SPACE) and the Unicode White_Space code points. *)
Definition isspace (c : N) : bool :=
  ((0x09 <=? c) && (c <=? 0x0D) || (0x1C <=? c) && (c <=? 0x20)
   || (c =? 0x85) || (c =? 0xA0) || (c =? 0x1680)
   || (0x2000 <=? c) && (c <=? 0x200A)
   || (c =? 0x2028) || (c =? 0x2029) || (c =? 0x202F)
   || (c =? 0x205F) || (c =? 0x3000))%N.

(** [s.split()]: the maximal runs of non-whitespace, in order.  [cur] is
    the current token, reversed. *)
Fixpoint split_from (cur : str) (s : str) : list str :=
  match s with
  | [] => match cur with [] => [] | _ => [rev cur] end
  | c :: rest =>
      if isspace c
      then match cur with
           | [] => split_from [] rest
           | _ => rev cur :: split_from [] rest
           end
      else split_from (c :: cur) rest
  end.

Definition split (s : str) : list str := split_from [] s.

(** [len(s.split())] *)
Definition word_count (s : str) : Z := Z.of_nat (length (split s)).

(* ===================================================================== *)
(** ** [re.findall] on a literal pattern                                  *)
(* ===================================================================== *)

(** Is [kw] a prefix of [text]? *)
Fixpoint starts_with (kw text : str) : bool :=
  match kw, text with
  | [], _ => true
  | _ :: _, [] => false
  | k :: kw', c :: text' => (k =? c)%N && starts_with kw' text'
  end.

(** [re.findall(kw, text)] for a pattern without metacharacters: the scan
    goes left to right; a match at the current position is recorded and
    the scan resumes after the matched text ([skip] characters remain to
    be passed over), otherwise it moves one character on.  An empty
    pattern matches once at every position, the end included. *)
Fixpoint findall_from (kw : str) (skip : nat) (text : str) : list str :=
  match text with
  | [] => match kw with [] => [[]] | _ => [] end
  | _ :: rest =>
      match skip with
      | S k => findall_from kw k rest
      | O =>
          if starts_with kw text
          then kw :: findall_from kw (length kw - 1) rest
          else findall_from kw 0 rest
      end
  end.

Definition findall (kw text : str) : list str := findall_from kw 0 text.

(** The characters that are not literal in a pattern of [re]. *)
Definition regex_special (c : N) : bool :=
  existsb (N.eqb c) (u ".^$*+?{}[]\|()").

Definition literal_pattern (kw : str) : bool :=
  negb (existsb regex_special kw) && negb (str_eqb kw []).

(** The number of positions of [text] at which [kw] occurs, overlapping
    occurrences included. *)
Fixpoint occurrences (kw text : str) : nat :=
  match text with
  | [] => 0
  | _ :: rest =>
      (if starts_with kw text then 1 else 0) + occurrences kw rest
  end.

(** ASCII case folding, the restriction of [str.lower] to texts whose
    cased characters are all ASCII (CJK text has no case).  It instantiates
    the [lower] parameter on concrete inputs. *)
Definition ascii_lower (s : str) : str :=
  List.map (fun c => if ((0x41 <=? c) && (c <=? 0x5A))%N then (c + 0x20)%N else c) s.

(* ===================================================================== *)
(** ** Python built-ins used by the organizer                             *)
(* ===================================================================== *)

(** [d.get(key, default)] on an input record whose key may be absent. *)
Definition get {A : Type} (field : option A) (default : A) : A :=
  match field with
  | Some v => v
  | None => default
  end.

(** [max(a, b)] and [min(a, b)] on numbers: the first argument is kept
    unless the second is strictly larger (smaller). *)
Definition py_max (a b : Q) : Q := if Qlt_le_dec a b then b else a.
Definition py_min (a b : Q) : Q := if Qlt_le_dec b a then b else a.

(** [sum(...)] over Python ints. *)
Definition sum (l : list Z) : Z := fold_left Z.add l 0%Z.

(** [max(scores.values())] for a non-empty dict of ints. *)
Definition max_value (first : Z) (rest : list Z) : Z :=
  fold_left (fun m v => if (m <? v)%Z then v else m) rest first.

(** A dict in insertion order. *)
Definition dict (V : Type) := list (str * V).

(** [d[key]] / [key in d] *)
Fixpoint lookup {V : Type} (key : str) (d : dict V) : option V :=
  match d with
  | [] => None
  | (k, v) :: rest => if str_eqb k key then Some v else lookup key rest
  end.

(** [d[key] = value]: an existing key keeps its place. *)
Fixpoint dict_set {V : Type} (key : str) (value : V) (d : dict V) : dict V :=
  match d with
  | [] => [(key, value)]
  | (k, v) :: rest =>
      if str_eqb k key then (k, value) :: rest
      else (k, v) :: dict_set key value rest
  end.

(** [d[key].append(value)] on a [defaultdict(list)]: a missing key is
    created, at the end, with the empty list. *)
Fixpoint dict_append {V : Type} (key : str) (value : V) (d : dict (list V))
  : dict (list V) :=
  match d with
  | [] => [(key, [value])]
  | (k, l) :: rest =>
      if str_eqb k key then (k, l ++ [value]) :: rest
      else (k, l) :: dict_append key value rest
  end.

(* ===================================================================== *)
(** ** The category registry ([self.categories])                          *)
(* ===================================================================== *)

Record category_info := {
  keywords : list str;
  description : str;
  suggested_name : str
}.

Definition categories : dict category_info := [
  (u "AI_Programming",
   {| keywords := [u "ai"; u "claude"; u "coding"; u "programming";
                   u "vibe coding"; u "cursor"; u "superclaude"];
      description := u "AI编程开发";
      suggested_name := u "🤖 AI编程开发" |});
  (u "Investment_Finance",
   {| keywords := [u "bitcoin"; u "crypto"; u "investment"; u "finance";
                   u "trading"; u "加密"; u "投资"];
      description := u "投资理财";
      suggested_name := u "💰 投资理财" |});
  (u "Health_Wellness",
   {| keywords := [u "康复"; u "健康"; u "筋膜"; u "物理治疗"; u "health";
                   u "wellness"; u "therapy"];
      description := u "健康养生";
      suggested_name := u "🏥 健康养生" |});
  (u "Gaming",
   {| keywords := [u "黑神话"; u "游戏"; u "game"; u "gaming"; u "wukong";
                   u "攻略"];
      description := u "游戏娱乐";
      suggested_name := u "🎮 游戏娱乐" |});
  (u "Technology_Hardware",
   {| keywords := [u "pc"; u "diy"; u "hardware"; u "tech"; u "computer";
                   u "rtx"; u "cpu"];
      description := u "科技硬件";
      suggested_name := u "🔧 科技硬件" |});
  (u "Music_Relaxation",
   {| keywords := [u "music"; u "lo-fi"; u "lofi"; u "relaxation"; u "音乐";
                   u "放松"; u "jazz"];
      description := u "音乐放松";
      suggested_name := u "🎵 音乐放松" |});
  (u "Education_Learning",
   {| keywords := [u "tutorial"; u "education"; u "learning"; u "教程";
                   u "学习"; u "课程"];
      description := u "教育学习";
      suggested_name := u "📚 教育学习" |})
].

Definition UNCATEGORIZED : str := u "Uncategorized".

(* ===================================================================== *)
(** ** Input snapshot                                                     *)
(* ===================================================================== *)

(** A video and a playlist of the backup file; every key may be absent. *)
Record video := {
  video_title : option str;
  video_description : option str
}.

Record playlist := {
  playlist_id : option str;
  playlist_title : option str;
  playlist_description : option str;
  playlist_video_count : option Z;
  playlist_videos : option (list video)
}.

(** [self.playlists_data] once loaded. *)
Record snapshot := {
  total_playlists : Z;
  playlists : list playlist
}.

(* ===================================================================== *)
(** ** Derived records: scored playlists and the plan                     *)
(* ===================================================================== *)

(** [playlist_info] of [categorize_playlists] (key ['id'] is [info_id]). *)
Record playlist_info := {
  original_data : playlist;
  category : str;
  confidence : Q;
  video_count : Z;
  title : str;
  info_id : str
}.

Record playlist_detail := {
  detail_title : str;
  detail_video_count : Z;
  detail_confidence : Q;
  detail_id : str
}.

Record category_summary := {
  summary_suggested_name : str;
  summary_description : str;
  summary_playlists : Z;
  summary_total_videos : Z;
  summary_playlist_details : list playlist_detail
}.

Record merge_suggestion := {
  merge_category : str;
  merge_target_name : str;
  merge_playlists_to_merge : list str;
  merge_total_videos : Z
}.

Record rename_suggestion := {
  rename_current_name : str;
  rename_suggested_name : str;
  rename_category : str;
  rename_id : str
}.

Record delete_suggestion := {
  delete_title : str;
  delete_video_count : Z;
  delete_reason : str;
  delete_id : str
}.

Record plan := {
  timestamp : str;
  original_count : Z;
  plan_categories : dict category_summary;
  merge_suggestions : list merge_suggestion;
  rename_suggestions : list rename_suggestion;
  delete_suggestions : list delete_suggestion
}.

Definition set_timestamp (t : str) (pl : plan) : plan :=
  {| timestamp := t;
     original_count := original_count pl;
     plan_categories := plan_categories pl;
     merge_suggestions := merge_suggestions pl;
     rename_suggestions := rename_suggestions pl;
     delete_suggestions := delete_suggestions pl |}.

(* --------------------------------------------------------------------- *)
(** *** Sample inputs                                                     *)
(* --------------------------------------------------------------------- *)

(** A playlist with the given title, description and video count, and no
    video. *)
Definition titled (t d : string) (n : Z) : playlist :=
  {| playlist_id := Some (u "PL1");
     playlist_title := Some (u t);
     playlist_description := Some (u d);
     playlist_video_count := Some n;
     playlist_videos := Some [] |}.

(** A playlist none of whose keys is present. *)
Definition bare_playlist : playlist :=
  {| playlist_id := None;
     playlist_title := None;
     playlist_description := None;
     playlist_video_count := None;
     playlist_videos := None |}.

(** One keyword in the title and forty words in all. *)
Definition long_playlist : playlist :=
  titled "ai"
    "a b c d e f g h i j k l m n o p q r s t u v w x y z a b c d e f g h i j k l m"
    3.

(** One keyword in the title and four videos of ten words each. *)
Definition ten_word_video : video :=
  {| video_title := Some (u "one two three four five");
     video_description := Some (u "six seven eight nine ten") |}.

Definition video_playlist : playlist :=
  {| playlist_id := Some (u "PL1");
     playlist_title := Some (u "ai");
     playlist_description := Some (u "");
     playlist_video_count := Some 4%Z;
     playlist_videos :=
       Some [ten_word_video; ten_word_video; ten_word_video;
             ten_word_video] |}.

(** [gaming] twice in the title, the two occurrences sharing a [g]. *)
Definition overlap_playlist : playlist := titled "gamingaming" "" 2.

(** [round(x, 2)] leaves a value of at most two decimals as it is. *)
Definition no_round (x : Q) : Q := x.

(** An empty playlist, a large one and two whose titles differ by case
    only. *)
Definition sample_playlists : list playlist :=
  [titled "Mix" "" 0; titled "Archive" "" 150; titled "MIX" "" 5].

(** [len(re.findall(keyword, text))] *)
Definition matches (keyword text : str) : Z :=
  Z.of_nat (length (findall keyword text)).

Section Organizer.

(** [str.lower] of the runtime and [round(x, 2)] on floats. *)
Variable lower : str -> str.
Variable round2 : Q -> Q.

(* --------------------------------------------------------------------- *)
(** *** [analyze_playlist_content]                                        *)
(* --------------------------------------------------------------------- *)

Definition title_text (p : playlist) : str :=
  lower (get (playlist_title p) []).

Definition description_text (p : playlist) : str :=
  lower (get (playlist_description p) []).

(** The loop over the videos: each one appends
    [f" {title} {description}"]; the result is lowered as a whole. *)
Definition video_content (p : playlist) : str :=
  lower
    (fold_left
       (fun content v =>
          content ++ SPACE :: get (video_title v) []
                  ++ SPACE :: get (video_description v) [])
       (get (playlist_videos p) []) []).

(** [f"{title} {description} {video_content}"] *)
Definition all_content (p : playlist) : str :=
  title_text p ++ SPACE :: description_text p ++ SPACE :: video_content p.

(** The contribution of one keyword to the score of its category. *)
Definition keyword_score (p : playlist) (keyword : str) : Z :=
  (matches keyword (title_text p) * 3
   + matches keyword (description_text p) * 2
   + matches keyword (video_content p) * 1)%Z.

(** The inner loop: [score] starts at 0 and adds every keyword. *)
Definition category_score (info : category_info) (p : playlist) : Z :=
  fold_left (fun score keyword => (score + keyword_score p keyword)%Z)
            (keywords info) 0%Z.

(** The outer loop: [category_scores[category] = score]. *)
Definition category_scores (p : playlist) : dict Z :=
  fold_left
    (fun scores entry => dict_set (fst entry) (category_score (snd entry) p) scores)
    categories [].

(** [category_scores.get] as the key function of [max], and
    [category_scores[best_category]]. *)
Definition score_of (scores : dict Z) (key : str) : Z :=
  get (lookup key scores) 0%Z.

(** [max(keys, key=f)]: the first key of largest [f]. *)
Definition max_by (f : str -> Z) (first : str) (rest : list str) : str :=
  fold_left (fun best k => if (f best <? f k)%Z then k else best) rest first.

Definition analyze_playlist_content (p : playlist) : str * Q :=
  let scores := category_scores p in
  match scores with
  | [] => (UNCATEGORIZED, 0)
  | (c0, s0) :: rest =>
      if (max_value s0 (List.map snd rest) =? 0)%Z
      then (UNCATEGORIZED, 0)
      else
        let best_category := max_by (score_of scores) c0 (List.map fst rest) in
        let max_score := score_of scores best_category in
        let confidence :=
          py_min (inject_Z max_score
                  / py_max (inject_Z (word_count (all_content p)) / 10) 1)
                 1 in
        (best_category, confidence)
  end.

(* --------------------------------------------------------------------- *)
(** *** [categorize_playlists]                                            *)
(* --------------------------------------------------------------------- *)

Definition make_info (p : playlist) : playlist_info :=
  let (c, conf) := analyze_playlist_content p in
  {| original_data := p;
     category := c;
     confidence := conf;
     video_count := get (playlist_video_count p) 0%Z;
     title := get (playlist_title p) [];
     info_id := get (playlist_id p) [] |}.

(** [self.playlists_data] is [None] until a backup is loaded. *)
Definition categorize_playlists (playlists_data : option snapshot)
  : dict (list playlist_info) :=
  match playlists_data with
  | None => []
  | Some data =>
      fold_left
        (fun categorized p =>
           let info := make_info p in
           dict_append (category info) info categorized)
        (playlists data) []
  end.

(* --------------------------------------------------------------------- *)
(** *** [generate_reorganization_plan]                                    *)
(* --------------------------------------------------------------------- *)

(** [category_info.get('suggested_name', category)] and
    [category_info.get('description', '')] where
    [category_info = self.categories.get(category, {})]. *)
Definition suggested_name_of (c : str) : str :=
  match lookup c categories with
  | Some info => suggested_name info
  | None => c
  end.

Definition description_of (c : str) : str :=
  match lookup c categories with
  | Some info => description info
  | None => []
  end.

Definition total_videos (group : list playlist_info) : Z :=
  sum (List.map video_count group).

Definition make_detail (p : playlist_info) : playlist_detail :=
  {| detail_title := title p;
     detail_video_count := video_count p;
     detail_confidence := round2 (confidence p);
     detail_id := info_id p |}.

Definition make_summary (c : str) (group : list playlist_info)
  : category_summary :=
  {| summary_suggested_name := suggested_name_of c;
     summary_description := description_of c;
     summary_playlists := Z.of_nat (length group);
     summary_total_videos := total_videos group;
     summary_playlist_details := List.map make_detail group |}.

Definition make_merge (c : str) (group : list playlist_info)
  : merge_suggestion :=
  {| merge_category := c;
     merge_target_name := suggested_name_of c;
     merge_playlists_to_merge := List.map title group;
     merge_total_videos := total_videos group |}.

Definition make_rename (c : str) (p : playlist_info) : rename_suggestion :=
  {| rename_current_name := title p;
     rename_suggested_name := suggested_name_of c;
     rename_category := c;
     rename_id := info_id p |}.

Definition make_delete (p : playlist_info) : delete_suggestion :=
  {| delete_title := title p;
     delete_video_count := video_count p;
     delete_reason := u "视频数量过少";
     delete_id := info_id p |}.

(** One turn of the loop over [categorized.items()]. *)
Definition plan_category (pl : plan) (entry : str * list playlist_info)
  : plan :=
  let (c, group) := entry in
  if str_eqb c UNCATEGORIZED then pl
  else
    let cats := dict_set c (make_summary c group) (plan_categories pl) in
    let merges :=
      if (1 <? Z.of_nat (length group))%Z
      then merge_suggestions pl ++ [make_merge c group]
      else merge_suggestions pl in
    let renames :=
      if (1 <? Z.of_nat (length group))%Z then rename_suggestions pl
      else
        match group with
        | [p] =>
            if negb (str_eqb (title p) (suggested_name_of c))
            then rename_suggestions pl ++ [make_rename c p]
            else rename_suggestions pl
        | _ => rename_suggestions pl
        end in
    {| timestamp := timestamp pl;
       original_count := original_count pl;
       plan_categories := cats;
       merge_suggestions := merges;
       rename_suggestions := renames;
       delete_suggestions := delete_suggestions pl |}.

(** One turn of the loop over the uncategorized playlists. *)
Definition plan_uncategorized (pl : plan) (p : playlist_info) : plan :=
  if (video_count p <=? 1)%Z
  then {| timestamp := timestamp pl;
          original_count := original_count pl;
          plan_categories := plan_categories pl;
          merge_suggestions := merge_suggestions pl;
          rename_suggestions := rename_suggestions pl;
          delete_suggestions := delete_suggestions pl ++ [make_delete p] |}
  else pl.

(** [now] is [datetime.now().isoformat()].  Without loaded data
    [categorize_playlists] returns the empty dict and the subscript
    [self.playlists_data['total_playlists']] raises: no plan ([None]). *)
Definition generate_reorganization_plan (now : str)
    (playlists_data : option snapshot) : option plan :=
  let categorized := categorize_playlists playlists_data in
  match playlists_data with
  | None => None
  | Some data =>
      let plan0 :=
        {| timestamp := now;
           original_count := total_playlists data;
           plan_categories := [];
           merge_suggestions := [];
           rename_suggestions := [];
           delete_suggestions := [] |} in
      let plan1 := fold_left plan_category categorized plan0 in
      Some
        match lookup UNCATEGORIZED categorized with
        | Some uncategorized => fold_left plan_uncategorized uncategorized plan1
        | None => plan1
        end
  end.

(* --------------------------------------------------------------------- *)
(** *** The specification's reading of the analysis                       *)
(* --------------------------------------------------------------------- *)

(** The winning raw score: the largest raw score over the registry. *)
Definition spec_winning_score (p : playlist) : Z :=
  fold_right Z.max 0%Z
    (List.map (fun entry => category_score (snd entry) p) categories).

(** The body text, stated from the videos: the title and the description
    of each video of the playlist, in order, each preceded by a space;
    an absent title, description or video list is empty. *)
Definition spec_body_text (p : playlist) : str :=
  concat
    (List.map
       (fun v => SPACE :: get (video_title v) []
                 ++ SPACE :: get (video_description v) [])
       (get (playlist_videos p) [])).

(** All the text: the concatenation of the lower-cased title, description
    and body text, a space between them. *)
Definition spec_all_text (p : playlist) : str :=
  lower (get (playlist_title p) [])
  ++ SPACE :: lower (get (playlist_description p) [])
  ++ SPACE :: lower (spec_body_text p).

(** The words of a playlist counted field by field: the whitespace tokens
    of its title, of its description, and of the title and of the
    description of each of its videos. *)
Definition spec_word_count (p : playlist) : Z :=
  (word_count (get (playlist_title p) [])
   + word_count (get (playlist_description p) [])
   + sum (List.map
            (fun v => word_count (get (video_title v) [])
                      + word_count (get (video_description v) []))
            (get (playlist_videos p) [])))%Z.

(** [min(winning_score / max(word_count / 10, 1), 1.0)] over the
    rationals, for a given word count. *)
Definition spec_confidence (words : Z) (p : playlist) : Q :=
  Qmin (inject_Z (spec_winning_score p) / Qmax (inject_Z words / 10) 1) 1.

(** Lower-casing keeps the whitespace tokens of a text apart: it neither
    makes nor removes whitespace.  [str.lower] is such a mapping (no
    whitespace character has a case mapping and no case mapping yields
    whitespace). *)
Definition keeps_tokens (f : str -> str) : Prop :=
  forall s, word_count (f s) = word_count s.

(** The weighted sum of the specification for one category. *)
Definition spec_raw_score (count : str -> str -> Z) (info : category_info)
    (p : playlist) : Z :=
  fold_right Z.add 0%Z
    (List.map
       (fun keyword =>
          (count keyword (title_text p) * 3
           + count keyword (description_text p) * 2
           + count keyword (video_content p) * 1)%Z)
       (keywords info)).

(** A keyword overlaps itself when a proper, non-empty prefix of it is
    also a suffix of it ([gaming], [health]). *)
Definition self_overlapping (kw : str) : bool :=
  existsb (fun n => starts_with (skipn n kw) kw)
          (seq 1 (length kw - 1)).

(* --------------------------------------------------------------------- *)
(** *** Notions used to state the properties                              *)
(* --------------------------------------------------------------------- *)

(** [best] is the first element of [l] on which [f] is largest. *)
Definition first_argmax {A : Type} (f : A -> Z) (l : list A) (best : A) : Prop :=
  exists l1 l2,
    l = l1 ++ best :: l2
    /\ (forall k, In k l1 -> (f k < f best)%Z)
    /\ (forall k, In k l2 -> (f k <= f best)%Z).

(** The confidence computed for a winning score. *)
Definition confidence_of (max_score : Z) (p : playlist) : Q :=
  py_min (inject_Z max_score
          / py_max (inject_Z (word_count (all_content p)) / 10) 1)
         1.

(** [c] wins on [p]: it is the first category, in registry order, whose
    raw score is the largest. *)
Definition winner (p : playlist) (c : str) (info : category_info) : Prop :=
  first_argmax (fun e => category_score (snd e) p) categories (c, info).

(** The members of category [c] among [l], in the order of [l]. *)
Definition members (c : str) (l : list playlist_info) : list playlist_info :=
  filter (fun i => str_eqb (category i) c) l.

(** [d] groups [l]: a key is bound exactly when it has members, and then
    to its members in the order of [l]. *)
Definition groups (l : list playlist_info) (d : dict (list playlist_info))
  : Prop :=
  NoDup (List.map fst d)
  /\ (forall c, lookup c d
                = match members c l with [] => None | g => Some g end)
  /\ Permutation (concat (List.map snd d)) l.

(** The groups that get a summary: all but the sentinel's. *)
Definition categorized_only (d : dict (list playlist_info))
  : dict (list playlist_info) :=
  filter (fun e => negb (str_eqb (fst e) UNCATEGORIZED)) d.

(** What one group adds to the merge and to the rename suggestions. *)
Definition merge_rule (e : str * list playlist_info) : list merge_suggestion :=
  if (1 <? Z.of_nat (length (snd e)))%Z
  then [make_merge (fst e) (snd e)] else [].

Definition rename_rule (e : str * list playlist_info)
  : list rename_suggestion :=
  if (1 <? Z.of_nat (length (snd e)))%Z then []
  else match snd e with
       | [p] => if negb (str_eqb (title p) (suggested_name_of (fst e)))
                then [make_rename (fst e) p] else []
       | _ => []
       end.

Definition delete_rule (p : playlist_info) : bool := (video_count p <=? 1)%Z.

(** The suggestions of the plan that name category [c]. *)
Definition merges_for (c : str) (pl : plan) : list merge_suggestion :=
  filter (fun m => str_eqb (merge_category m) c) (merge_suggestions pl).

Definition renames_for (c : str) (pl : plan) : list rename_suggestion :=
  filter (fun r => str_eqb (rename_category r) c) (rename_suggestions pl).

(* --------------------------------------------------------------------- *)
(** *** Further notions: order of the groups, counts                      *)
(* --------------------------------------------------------------------- *)

(** The distinct elements of a list, each at its first occurrence. *)
Fixpoint distinct_in_order (l : list str) : list str :=
  match l with
  | [] => []
  | x :: rest =>
      x :: filter (fun y => negb (str_eqb y x)) (distinct_in_order rest)
  end.

(** The categories that have a summary in a plan, in the plan's order. *)
Definition plan_keys (pl : plan) : list str := List.map fst (plan_categories pl).

(* --------------------------------------------------------------------- *)
(** *** [YouTubePlaylistManager.analyze_playlists]                        *)
(* --------------------------------------------------------------------- *)

(** A subscript [d[key]] raises [KeyError] when the key is absent: the
    computations that use one are in the option monad. *)
Definition bind {A B : Type} (x : option A) (k : A -> option B) : option B :=
  match x with
  | Some v => k v
  | None => None
  end.

Notation "x <- e ;; k" := (bind e (fun x => k))
  (at level 61, e at next level, right associativity).

(** [[f(x) for x in l]] where [f] may raise. *)
Fixpoint required {A B : Type} (f : A -> option B) (l : list A)
  : option (list B) :=
  match l with
  | [] => Some []
  | x :: rest =>
      v <- f x ;;
      vs <- required f rest ;;
      Some (v :: vs)
  end.

(** [str(n)] for a length. *)
Fixpoint uint_digits (d : Decimal.uint) : str :=
  match d with
  | Decimal.Nil => []
  | Decimal.D0 r => 48%N :: uint_digits r
  | Decimal.D1 r => 49%N :: uint_digits r
  | Decimal.D2 r => 50%N :: uint_digits r
  | Decimal.D3 r => 51%N :: uint_digits r
  | Decimal.D4 r => 52%N :: uint_digits r
  | Decimal.D5 r => 53%N :: uint_digits r
  | Decimal.D6 r => 54%N :: uint_digits r
  | Decimal.D7 r => 55%N :: uint_digits r
  | Decimal.D8 r => 56%N :: uint_digits r
  | Decimal.D9 r => 57%N :: uint_digits r
  end.

Definition decimal (n : nat) : str := uint_digits (Nat.to_uint n).

Record analysis := {
  analysis_total_playlists : Z;
  analysis_total_videos : Z;
  empty_playlists : list playlist;
  large_playlists : list playlist;
  duplicate_titles : list playlist;
  suggestions : list str
}.

(** The loops that collect the playlists whose video count passes
    [test]. *)
Fixpoint collect (test : Z -> bool) (l : list playlist)
    (found : list playlist) : option (list playlist) :=
  match l with
  | [] => Some found
  | p :: rest =>
      n <- playlist_video_count p ;;
      collect test rest (if test n then found ++ [p] else found)
  end.

(** The loop over [enumerate(titles)]: [playlists[i]] is flagged when its
    title is in [seen]; the title is added to [seen] in either case. *)
Fixpoint find_duplicates (all : list playlist) (titles : list str) (i : nat)
    (seen : list str) (found : list playlist) : option (list playlist) :=
  match titles with
  | [] => Some found
  | t :: rest =>
      if existsb (str_eqb t) seen
      then p <- nth_error all i ;;
           find_duplicates all rest (S i) (t :: seen) (found ++ [p])
      else find_duplicates all rest (S i) (t :: seen) found
  end.

Definition analyze_playlists (l : list playlist) : option analysis :=
  counts <- required playlist_video_count l ;;
  empty <- collect (fun n => (n =? 0)%Z) l [] ;;
  large <- collect (fun n => (100 <? n)%Z) l [] ;;
  titles <- required (fun p => option_map lower (playlist_title p)) l ;;
  duplicates <- find_duplicates l titles 0 [] [] ;;
  Some {| analysis_total_playlists := Z.of_nat (length l);
          analysis_total_videos := sum counts;
          empty_playlists := empty;
          large_playlists := large;
          duplicate_titles := duplicates;
          suggestions :=
            (match empty with
             | [] => []
             | _ => [u "发现 " ++ decimal (length empty)
                       ++ u " 个空播放列表，建议删除"]
             end)
            ++ (match large with
                | [] => []
                | _ => [u "发现 " ++ decimal (length large)
                          ++ u " 个大型播放列表，建议分割"]
                end)
            ++ (match duplicates with
                | [] => []
                | _ => [u "发现 " ++ decimal (length duplicates)
                          ++ u " 个可能重复的播放列表标题"]
                end) |}.

(** The lower-cased title of a playlist that has one. *)
Definition lowered_title (p : playlist) : str :=
  lower (get (playlist_title p) []).

(** A playlist has the keys that [analyze_playlists] subscripts. *)
Definition has_keys (p : playlist) : bool :=
  match playlist_video_count p, playlist_title p with
  | Some _, Some _ => true
  | _, _ => false
  end.

(** The video count of a playlist passes [test]. *)
Definition count_is (test : Z -> bool) (p : playlist) : bool :=
  match playlist_video_count p with
  | Some n => test n
  | None => false
  end.

(** The playlists whose lowered title is in [seen] or is the lowered
    title of an earlier playlist of the list. *)
Fixpoint repeated (seen : list str) (l : list playlist) : list playlist :=
  match l with
  | [] => []
  | p :: rest =>
      if existsb (str_eqb (lowered_title p)) seen
      then p :: repeated (lowered_title p :: seen) rest
      else repeated (lowered_title p :: seen) rest
  end.

(** 1 for a list that has an element, 0 for the empty list. *)
Definition some_found {A : Type} (l : list A) : nat :=
  match l with
  | [] => 0
  | _ => 1
  end.

(* ===================================================================== *)
(** ** Lemmas on the built-ins                                            *)
(* ===================================================================== *)

Lemma str_eqb_eq (a b : str) : str_eqb a b = true <-> a = b.
Proof.
  unfold str_eqb. destruct (str_eq_dec a b); split; congruence.
Qed.

Lemma str_eqb_neq (a b : str) : str_eqb a b = false <-> a <> b.
Proof.
  unfold str_eqb. destruct (str_eq_dec a b); split; congruence.
Qed.

Lemma str_eqb_refl (a : str) : str_eqb a a = true.
Proof. now apply str_eqb_eq. Qed.

Lemma dict_set_fresh {V : Type} (k : str) (v : V) (d : dict V) :
  ~ In k (List.map fst d) -> dict_set k v d = d ++ [(k, v)].
Proof.
  induction d as [|[k' v'] d IH]; simpl; intros Hk; [reflexivity|].
  destruct (str_eqb k' k) eqn:E.
  - apply str_eqb_eq in E. tauto.
  - rewrite IH; tauto.
Qed.

Lemma lookup_In {V : Type} (k : str) (v : V) (d : dict V) :
  NoDup (List.map fst d) -> In (k, v) d -> lookup k d = Some v.
Proof.
  induction d as [|[k' v'] d IH]; simpl; intros Hnd Hin; [easy|].
  inversion Hnd as [|? ? Hnotin Hnd']; subst.
  destruct Hin as [Heq|Hin].
  - inversion Heq; subst. now rewrite str_eqb_refl.
  - destruct (str_eqb k' k) eqn:E.
    + apply str_eqb_eq in E; subst. exfalso. apply Hnotin.
      change k with (fst (k, v)). now apply in_map.
    + now apply IH.
Qed.

Lemma lookup_None {V : Type} (k : str) (d : dict V) :
  lookup k d = None <-> ~ In k (List.map fst d).
Proof.
  induction d as [|[k' v'] d IH]; simpl; [tauto|].
  destruct (str_eqb k' k) eqn:E.
  - apply str_eqb_eq in E. split; [discriminate|tauto].
  - apply str_eqb_neq in E. rewrite IH. tauto.
Qed.

Lemma lookup_Some_In {V : Type} (k : str) (v : V) (d : dict V) :
  lookup k d = Some v -> In (k, v) d.
Proof.
  induction d as [|[k' v'] d IH]; simpl; [discriminate|].
  destruct (str_eqb k' k) eqn:E.
  - apply str_eqb_eq in E. intros H; inversion H; subst. now left.
  - intros H. right. now apply IH.
Qed.

(** The loop that fills a dict from entries with distinct, fresh keys
    appends them in order. *)
Lemma fold_dict_set_fresh {A V : Type} (f : A -> V) (l : list (str * A)) :
  forall acc : dict V,
    NoDup (List.map fst acc ++ List.map fst l) ->
    fold_left (fun d e => dict_set (fst e) (f (snd e)) d) l acc
    = acc ++ List.map (fun e => (fst e, f (snd e))) l.
Proof.
  induction l as [|[k a] l IH]; simpl; intros acc Hnd.
  - now rewrite app_nil_r.
  - rewrite dict_set_fresh.
    + rewrite IH.
      * now rewrite <- app_assoc.
      * rewrite map_app. simpl. rewrite <- app_assoc. exact Hnd.
    + apply NoDup_remove_2 in Hnd. intros Hin. apply Hnd.
      apply in_or_app. now left.
Qed.

Lemma sum_from (l : list Z) (a : Z) :
  fold_left Z.add l a = (a + fold_right Z.add 0 l)%Z.
Proof.
  revert a. induction l as [|x l IH]; simpl; intros a; [lia|].
  rewrite IH. lia.
Qed.

Lemma sum_fold_right (l : list Z) : sum l = fold_right Z.add 0%Z l.
Proof. unfold sum. rewrite sum_from. lia. Qed.

Lemma sum_app (l1 l2 : list Z) : sum (l1 ++ l2) = (sum l1 + sum l2)%Z.
Proof.
  rewrite !sum_fold_right. induction l1; simpl; lia.
Qed.

Lemma sum_perm (l1 l2 : list Z) : Permutation l1 l2 -> sum l1 = sum l2.
Proof.
  rewrite !sum_fold_right.
  induction 1; simpl; lia.
Qed.

(** The registry is a dict: its keys are distinct, and none of them is
    the sentinel. *)
Lemma categories_keys_distinct : NoDup (List.map fst categories).
Proof.
  apply (NoDup_count_occ' str_eq_dec). intros k Hin.
  vm_compute in Hin.
  repeat (destruct Hin as [<-|Hin]; [vm_compute; reflexivity|]).
  destruct Hin.
Qed.

Lemma uncategorized_not_key : ~ In UNCATEGORIZED (List.map fst categories).
Proof.
  vm_compute. intros H.
  repeat (destruct H as [H|H]; [discriminate H|]). exact H.
Qed.

(* ===================================================================== *)
(** ** Raw scores                                                         *)
(* ===================================================================== *)

Lemma matches_nonneg (kw text : str) : (0 <= matches kw text)%Z.
Proof. unfold matches. lia. Qed.

Lemma keyword_score_nonneg (p : playlist) (kw : str) :
  (0 <= keyword_score p kw)%Z.
Proof.
  unfold keyword_score.
  pose proof (matches_nonneg kw (title_text p)).
  pose proof (matches_nonneg kw (description_text p)).
  pose proof (matches_nonneg kw (video_content p)).
  lia.
Qed.

Lemma score_loop (f : str -> Z) (l : list str) (a : Z) :
  fold_left (fun score kw => (score + f kw)%Z) l a
  = (a + fold_right Z.add 0 (List.map f l))%Z.
Proof.
  revert a. induction l as [|x l IH]; simpl; intros a; [lia|].
  rewrite IH. lia.
Qed.

Lemma category_score_sum (info : category_info) (p : playlist) :
  category_score info p
  = fold_right Z.add 0%Z (List.map (keyword_score p) (keywords info)).
Proof. unfold category_score. now rewrite score_loop. Qed.

Lemma sum_nonneg (l : list Z) :
  Forall (fun v => 0 <= v)%Z l -> (0 <= fold_right Z.add 0 l)%Z.
Proof. induction 1; simpl; lia. Qed.

Lemma category_score_nonneg (info : category_info) (p : playlist) :
  (0 <= category_score info p)%Z.
Proof.
  rewrite category_score_sum. apply sum_nonneg.
  apply Forall_forall. intros v Hv. apply in_map_iff in Hv.
  destruct Hv as [kw [<- _]]. apply keyword_score_nonneg.
Qed.

(** The score table holds the registry's categories in registry order. *)
Lemma category_scores_map (p : playlist) :
  category_scores p
  = List.map (fun e => (fst e, category_score (snd e) p)) categories.
Proof.
  unfold category_scores.
  rewrite (fold_dict_set_fresh (fun info => category_score info p)).
  - reflexivity.
  - simpl. apply categories_keys_distinct.
Qed.

(* ===================================================================== *)
(** ** [max] over the score table                                         *)
(* ===================================================================== *)

Lemma max_value_fold (l : list Z) : forall a : Z,
  (0 <= a)%Z -> Forall (fun v => 0 <= v)%Z l ->
  max_value a l = fold_right Z.max 0%Z (a :: l).
Proof.
  unfold max_value.
  induction l as [|x l IH]; simpl; intros a Ha Hl.
  - lia.
  - inversion Hl as [|? ? Hx Hl']; subst.
    destruct (Z.ltb_spec a x).
    + rewrite IH by assumption. simpl. lia.
    + rewrite IH by assumption. simpl. lia.
Qed.

Lemma fold_max_nonneg (l : list Z) : (0 <= fold_right Z.max 0 l)%Z.
Proof. induction l; simpl; lia. Qed.

Lemma fold_max_ge (l : list Z) (v : Z) :
  In v l -> (v <= fold_right Z.max 0 l)%Z.
Proof.
  induction l as [|x l IH]; simpl; [easy|].
  intros [->|H]; [lia|]. apply IH in H. lia.
Qed.

Lemma fold_max_zero (l : list Z) :
  Forall (fun v => 0 <= v)%Z l ->
  (fold_right Z.max 0 l = 0 <-> Forall (fun v => v = 0) l)%Z.
Proof.
  induction 1 as [|x l Hx Hl IH]; simpl.
  - split; auto.
  - pose proof (fold_max_nonneg l). split.
    + intros Hm. constructor; [lia|]. apply IH. lia.
    + intros Hall. inversion Hall; subst. apply IH in H3. lia.
Qed.

Lemma fold_max_attained (l : list Z) (v : Z) :
  (0 <= v)%Z -> In v l -> (forall w, In w l -> w <= v)%Z ->
  fold_right Z.max 0%Z l = v.
Proof.
  intros Hv Hin Hle.
  apply Z.le_antisymm.
  - clear Hin. induction l as [|x l IH]; simpl; [lia|].
    apply Z.max_lub.
    + apply Hle. now left.
    + apply IH. intros w Hw. apply Hle. now right.
  - now apply fold_max_ge.
Qed.

Lemma max_by_loop (f : str -> Z) (rest : list str) :
  forall (pre : list str) (best : str),
    first_argmax f pre best ->
    first_argmax f (pre ++ rest)
      (fold_left (fun b k => if (f b <? f k)%Z then k else b) rest best).
Proof.
  induction rest as [|k rest IH]; simpl; intros pre best Hbest.
  - now rewrite app_nil_r.
  - replace (pre ++ k :: rest) with ((pre ++ [k]) ++ rest)
      by (now rewrite <- app_assoc).
    apply IH.
    destruct Hbest as (l1 & l2 & Hpre & Hlt & Hle).
    destruct (Z.ltb_spec (f best) (f k)) as [Hk|Hk].
    + exists pre, []. split; [reflexivity|]. split; [|easy].
      intros x Hx. subst pre. apply in_app_or in Hx.
      destruct Hx as [Hx|[<-|Hx]].
      * specialize (Hlt _ Hx). lia.
      * exact Hk.
      * specialize (Hle _ Hx). lia.
    + exists l1, (l2 ++ [k]). split.
      * subst pre. now rewrite <- app_assoc.
      * split; [exact Hlt|].
        intros x Hx. apply in_app_or in Hx.
        destruct Hx as [Hx|[<-|[]]]; [now apply Hle|exact Hk].
Qed.

Lemma max_by_first_argmax (f : str -> Z) (first : str) (rest : list str) :
  first_argmax f (first :: rest) (max_by f first rest).
Proof.
  unfold max_by. apply max_by_loop with (pre := [first]).
  exists [], []. repeat split; easy.
Qed.

Lemma score_of_entry (scores : dict Z) (k : str) (v : Z) :
  NoDup (List.map fst scores) -> In (k, v) scores -> score_of scores k = v.
Proof.
  intros Hnd Hin. unfold score_of. now rewrite (lookup_In k v scores).
Qed.

(** On a dict of scores, [max] over the keys with [get] as key function
    picks the first entry of largest score. *)
Lemma max_by_entry (scores : dict Z) (c0 : str) (s0 : Z) (rest : dict Z) :
  scores = (c0, s0) :: rest ->
  NoDup (List.map fst scores) ->
  let best := max_by (score_of scores) c0 (List.map fst rest) in
  first_argmax snd scores (best, score_of scores best).
Proof.
  intros Hsc Hnd best.
  destruct (max_by_first_argmax (score_of scores) c0 (List.map fst rest))
    as (l1 & l2 & Hsplit & Hlt & Hle).
  fold best in Hsplit, Hlt, Hle.
  assert (Hkeys : List.map fst scores = l1 ++ best :: l2)
    by (subst scores; exact Hsplit).
  apply map_eq_app in Hkeys. destruct Hkeys as (s1 & s2' & Hs & Hs1 & Hs2).
  apply map_eq_cons in Hs2. destruct Hs2 as ([b v] & s2 & -> & Hb & Hs2).
  simpl in Hb. subst b.
  assert (Hv : score_of scores best = v).
  { apply score_of_entry; [exact Hnd|]. rewrite Hs. apply in_or_app.
    right. now left. }
  rewrite Hv. exists s1, s2. split; [exact Hs|].
  assert (Hval : forall e, In e scores -> score_of scores (fst e) = snd e).
  { intros [k w] He. now apply score_of_entry. }
  split; intros e He; simpl.
  - rewrite <- Hv, <- (Hval e).
    + apply Hlt. rewrite <- Hs1. now apply in_map.
    + rewrite Hs. apply in_or_app. now left.
  - rewrite <- Hv, <- (Hval e).
    + apply Hle. rewrite <- Hs2. now apply in_map.
    + rewrite Hs. apply in_or_app. right. now right.
Qed.

Lemma first_argmax_map {A B : Type} (g : A -> B) (f : B -> Z) (l : list A)
    (b : B) :
  first_argmax f (List.map g l) b ->
  exists a, g a = b /\ first_argmax (fun x => f (g x)) l a.
Proof.
  intros (l1 & l2 & Hsplit & Hlt & Hle).
  apply map_eq_app in Hsplit. destruct Hsplit as (m1 & m2' & Hl & Hm1 & Hm2).
  apply map_eq_cons in Hm2. destruct Hm2 as (a & m2 & -> & Ha & Hm2).
  exists a. split; [exact Ha|].
  exists m1, m2. split; [exact Hl|]. rewrite Ha.
  split; intros x Hx.
  - apply Hlt. rewrite <- Hm1. now apply in_map.
  - apply Hle. rewrite <- Hm2. now apply in_map.
Qed.

Lemma first_argmax_In {A : Type} (f : A -> Z) (l : list A) (b : A) :
  first_argmax f l b -> In b l /\ forall x, In x l -> (f x <= f b)%Z.
Proof.
  intros (l1 & l2 & -> & Hlt & Hle). split.
  - apply in_or_app. right. now left.
  - intros x Hx. apply in_app_or in Hx. destruct Hx as [Hx|[<-|Hx]].
    + specialize (Hlt _ Hx). lia.
    + lia.
    + now apply Hle.
Qed.

(** The two outcomes of the analysis. *)
Lemma analyze_cases (p : playlist) :
  (spec_winning_score p = 0%Z
   /\ analyze_playlist_content p = (UNCATEGORIZED, 0))
  \/ ((0 < spec_winning_score p)%Z
      /\ exists c info,
           winner p c info
           /\ category_score info p = spec_winning_score p
           /\ analyze_playlist_content p
              = (c, confidence_of (spec_winning_score p) p)).
Proof.
  unfold analyze_playlist_content, winner, spec_winning_score, confidence_of.
  rewrite category_scores_map.
  pose proof categories_keys_distinct as Hnd.
  assert (Hnn : Forall (fun v => 0 <= v)%Z
                  (List.map (fun e => category_score (snd e) p) categories)).
  { apply Forall_forall. intros v Hv. apply in_map_iff in Hv.
    destruct Hv as [e [<- _]]. apply category_score_nonneg. }
  revert Hnd Hnn. generalize categories as cats.
  intros [|[c0 i0] rest] Hnd Hnn; [left; split; reflexivity|].
  cbn [List.map fst snd] in *.
  set (h := fun e : str * category_info => (fst e, category_score (snd e) p)).
  set (g := fun e : str * category_info => category_score (snd e) p) in *.
  set (tail := List.map h rest).
  set (scores := (c0, category_score i0 p) :: tail).
  set (m := fold_right Z.max 0%Z (category_score i0 p :: List.map g rest)).
  assert (Hsnd : List.map snd tail = List.map g rest).
  { unfold tail. rewrite map_map. reflexivity. }
  assert (Hfst : List.map fst scores = c0 :: List.map fst rest).
  { unfold scores, tail. simpl. rewrite map_map. reflexivity. }
  assert (Hmax : max_value (category_score i0 p) (List.map snd tail) = m).
  { rewrite Hsnd. apply max_value_fold.
    - apply category_score_nonneg.
    - now inversion Hnn. }
  rewrite Hmax.
  destruct (Z.eqb_spec m 0) as [Hm|Hm]; [left; split; [exact Hm|reflexivity]|].
  right. split.
  { pose proof (fold_max_nonneg (category_score i0 p :: List.map g rest)) as H.
    fold m in H. lia. }
  assert (Hbest : first_argmax snd scores
                    (max_by (score_of scores) c0 (List.map fst tail),
                     score_of scores
                       (max_by (score_of scores) c0 (List.map fst tail)))).
  { apply (@max_by_entry scores c0 (category_score i0 p) tail eq_refl).
    rewrite Hfst. exact Hnd. }
  set (best := max_by (score_of scores) c0 (List.map fst tail)) in *.
  change scores with (List.map h ((c0, i0) :: rest)) in Hbest at 1.
  apply first_argmax_map in Hbest.
  destruct Hbest as ([c info] & Heq & Harg). unfold h in Heq. simpl in Heq.
  inversion Heq as [[Hc Hv]].
  exists c, info.
  assert (Hwin : category_score info p = m).
  { destruct (first_argmax_In Harg) as [Hin Hle]. simpl in Hle.
    symmetry. apply fold_max_attained.
    - apply category_score_nonneg.
    - change (In (g (c, info)) (List.map g ((c0, i0) :: rest))).
      now apply in_map.
    - intros w Hw.
      change (In w (List.map g ((c0, i0) :: rest))) in Hw.
      apply in_map_iff in Hw. destruct Hw as [e [<- He]].
      now apply Hle. }
  split; [exact Harg|]. split; [exact Hwin|].
  rewrite Hwin, Hc. reflexivity.
Qed.

(* ===================================================================== *)
(** ** The scan of [re.findall]                                           *)
(* ===================================================================== *)

Lemma starts_with_app (kw text : str) :
  starts_with kw text = true <-> exists t, text = kw ++ t.
Proof.
  revert text. induction kw as [|k kw IH]; intros text; simpl.
  - split; [intros _; now exists text|reflexivity].
  - destruct text as [|c text].
    + split; [discriminate|intros [t Ht]; discriminate].
    + rewrite andb_true_iff, N.eqb_eq, IH. split.
      * intros [-> [t ->]]. now exists t.
      * intros [t Ht]. inversion Ht; subst. split; [reflexivity|now exists t].
Qed.

(** Every match returned by the scan is the pattern itself. *)
Lemma findall_from_matches (kw text : str) : forall skip m,
  In m (findall_from kw skip text) -> m = kw.
Proof.
  induction text as [|c text IH]; intros skip m; simpl.
  - destruct kw; simpl; [intros [<-|[]]; reflexivity|easy].
  - destruct skip as [|k]; [|apply IH].
    destruct (starts_with kw (c :: text)); [|apply IH].
    intros [<-|H]; [reflexivity|now apply IH in H].
Qed.

(** The scan never finds more matches than there are occurrences. *)
Lemma findall_from_le (kw text : str) : kw <> [] -> forall skip,
  (length (findall_from kw skip text) <= occurrences kw text)%nat.
Proof.
  intros Hkw. induction text as [|c text IH]; intros skip; simpl.
  - destruct kw; [congruence|simpl; lia].
  - destruct skip as [|k].
    + destruct (starts_with kw (c :: text)); simpl.
      * specialize (IH (length kw - 1)%nat). lia.
      * apply IH.
    + specialize (IH k). lia.
Qed.

(** The scan finds a match as soon as the pattern occurs. *)
Lemma findall_found (kw text : str) :
  (0 < occurrences kw text)%nat -> findall kw text <> [].
Proof.
  unfold findall. induction text as [|c text IH]; simpl; [lia|].
  destruct (starts_with kw (c :: text)); [easy|].
  simpl. exact IH.
Qed.

Lemma matches_le_occurrences (kw text : str) :
  kw <> [] -> (matches kw text <= Z.of_nat (occurrences kw text))%Z.
Proof.
  intros Hkw. unfold matches, findall.
  apply inj_le. now apply findall_from_le.
Qed.

Lemma matches_zero_iff (kw text : str) :
  kw <> [] -> (matches kw text = 0%Z <-> occurrences kw text = 0%nat).
Proof.
  intros Hkw. unfold matches. split.
  - intros H. destruct (occurrences kw text) eqn:E; [reflexivity|].
    exfalso. apply (@findall_found kw text); [lia|].
    destruct (findall kw text); [reflexivity|simpl in H; lia].
  - intros H. pose proof (@findall_from_le kw text Hkw 0%nat) as Hle.
    unfold findall. lia.
Qed.

(** A suffix of the pattern that is found where the pattern starts is a
    prefix of the pattern. *)
Lemma starts_with_overlap (b : str) : forall (a t : str),
  (length b <= length a)%nat ->
  starts_with a (b ++ t) = true -> starts_with b a = true.
Proof.
  induction b as [|x b IH]; intros a t Hlen H; [reflexivity|].
  destruct a as [|y a]; simpl in Hlen; [lia|].
  simpl in H |- *. apply andb_true_iff in H. destruct H as [Hxy H].
  apply N.eqb_eq in Hxy. subst y. rewrite N.eqb_refl. simpl.
  apply (IH a t); [lia|exact H].
Qed.

Lemma self_overlapping_false (kw : str) (n : nat) :
  self_overlapping kw = false ->
  (1 <= n < length kw)%nat -> starts_with (skipn n kw) kw = false.
Proof.
  unfold self_overlapping. intros H Hn.
  destruct (starts_with (skipn n kw) kw) eqn:E; [|reflexivity].
  assert (Hex : existsb (fun n => starts_with (skipn n kw) kw)
                  (seq 1 (length kw - 1)) = true).
  { apply existsb_exists. exists n. split; [|exact E].
    apply in_seq. lia. }
  congruence.
Qed.

(** After a match the pattern cannot start again inside the matched text
    unless it overlaps itself. *)
Lemma no_restart (kw text : str) (n : nat) :
  self_overlapping kw = false ->
  starts_with kw text = true ->
  (1 <= n < length kw)%nat ->
  starts_with kw (skipn n text) = false.
Proof.
  intros Hself Hstart Hn.
  destruct (starts_with kw (skipn n text)) eqn:E; [|reflexivity].
  apply starts_with_app in Hstart. destruct Hstart as [t ->].
  rewrite skipn_app in E.
  replace (n - length kw)%nat with 0%nat in E by lia. simpl in E.
  apply starts_with_overlap in E.
  - rewrite self_overlapping_false in E; [discriminate|assumption|assumption].
  - rewrite length_skipn. lia.
Qed.

(** When no occurrence starts in the part that is passed over, the scan
    finds every occurrence. *)
Lemma findall_from_all (kw text : str) :
  kw <> [] -> self_overlapping kw = false -> forall skip,
  (forall i, (i < skip)%nat -> starts_with kw (skipn i text) = false) ->
  length (findall_from kw skip text) = occurrences kw text.
Proof.
  intros Hkw Hself. induction text as [|c text IH]; intros skip Hskip.
  - simpl. destruct kw; [congruence|reflexivity].
  - simpl. destruct skip as [|k].
    + destruct (starts_with kw (c :: text)) eqn:E; simpl.
      * f_equal. apply IH. intros i Hi.
        change (skipn i text) with (skipn (S i) (c :: text)).
        apply no_restart; [assumption|assumption|lia].
      * apply IH. intros i Hi. lia.
    + assert (H0 : starts_with kw (c :: text) = false)
        by (apply (Hskip 0%nat); lia).
      rewrite H0. simpl.
      apply IH. intros i Hi.
      change (skipn i text) with (skipn (S i) (c :: text)).
      apply Hskip. lia.
Qed.

Lemma matches_eq_occurrences (kw text : str) :
  kw <> [] -> self_overlapping kw = false ->
  matches kw text = Z.of_nat (occurrences kw text).
Proof.
  intros Hkw Hself. unfold matches, findall. f_equal.
  apply findall_from_all; [assumption|assumption|].
  intros i Hi. lia.
Qed.

(* ===================================================================== *)
(** ** Tokens and confidence                                              *)
(* ===================================================================== *)

(** A whitespace character closes the current token: the tokens of
    [a ++ c :: b] are those of [a] followed by those of [b]. *)
Lemma split_from_sep (a b : str) (c : N) :
  isspace c = true ->
  forall cur, split_from cur (a ++ c :: b) = split_from cur a ++ split_from [] b.
Proof.
  intros Hc. induction a as [|x a IH]; intros cur; simpl.
  - rewrite Hc. destruct cur; reflexivity.
  - destruct (isspace x).
    + destruct cur; rewrite IH; reflexivity.
    + apply IH.
Qed.

Lemma word_count_sep (a b : str) :
  word_count (a ++ SPACE :: b) = (word_count a + word_count b)%Z.
Proof.
  unfold word_count, split.
  rewrite split_from_sep by reflexivity.
  rewrite length_app. lia.
Qed.

(** The loop over the videos appends their texts in order. *)
Lemma video_loop (vs : list video) : forall content : str,
  fold_left
    (fun content v =>
       content ++ SPACE :: get (video_title v) []
               ++ SPACE :: get (video_description v) [])
    vs content
  = content
    ++ concat
         (List.map
            (fun v => SPACE :: get (video_title v) []
                      ++ SPACE :: get (video_description v) [])
            vs).
Proof.
  induction vs as [|v vs IH]; intros content; simpl.
  - now rewrite app_nil_r.
  - rewrite IH, <- app_assoc. reflexivity.
Qed.

Lemma video_content_body (p : playlist) :
  video_content p = lower (spec_body_text p).
Proof.
  unfold video_content, spec_body_text. now rewrite video_loop.
Qed.

(** [all_content] is the concatenation of the title, the description and
    the texts of the videos. *)
Lemma all_content_text (p : playlist) : all_content p = spec_all_text p.
Proof.
  unfold all_content, spec_all_text, title_text, description_text.
  now rewrite video_content_body.
Qed.

Lemma word_count_nil : word_count [] = 0%Z.
Proof. reflexivity. Qed.

Lemma word_count_space (s : str) : word_count (SPACE :: s) = word_count s.
Proof.
  change (SPACE :: s) with ([] ++ SPACE :: s).
  now rewrite word_count_sep, word_count_nil.
Qed.

(** The words of the body text are those of the videos' titles and
    descriptions. *)
Lemma word_count_videos (vs : list video) :
  word_count
    (concat
       (List.map
          (fun v => SPACE :: get (video_title v) []
                    ++ SPACE :: get (video_description v) [])
          vs))
  = sum (List.map
           (fun v => word_count (get (video_title v) [])
                     + word_count (get (video_description v) []))%Z
           vs).
Proof.
  rewrite sum_fold_right.
  induction vs as [|v vs IH]; [reflexivity|].
  cbn [List.map concat fold_right]. rewrite <- IH. clear IH.
  cbn [app]. rewrite word_count_space, <- app_assoc. cbn [app].
  rewrite word_count_sep.
  assert (Hrest : forall d : str,
            word_count
              (d ++ concat
                      (List.map
                         (fun v => SPACE :: get (video_title v) []
                                   ++ SPACE :: get (video_description v) [])
                         vs))
            = (word_count d
               + word_count
                   (concat
                      (List.map
                         (fun v => SPACE :: get (video_title v) []
                                   ++ SPACE :: get (video_description v) [])
                         vs)))%Z).
  { intros d. destruct vs as [|v' vs]; cbn [List.map concat app].
    - rewrite app_nil_r, word_count_nil. lia.
    - now rewrite word_count_sep, word_count_space. }
  rewrite Hrest. lia.
Qed.

(** When lower-casing keeps the tokens, the words of all the text are
    those of the fields. *)
Lemma word_count_fields (p : playlist) :
  keeps_tokens lower -> word_count (spec_all_text p) = spec_word_count p.
Proof.
  intros Hlower. unfold spec_all_text, spec_word_count, spec_body_text.
  rewrite !word_count_sep, !Hlower, word_count_videos. lia.
Qed.

(** ASCII case folding keeps the tokens. *)
Lemma ascii_lower_isspace (c : N) :
  isspace (if ((0x41 <=? c) && (c <=? 0x5A))%N then (c + 0x20)%N else c)
  = isspace c.
Proof.
  destruct ((0x41 <=? c) && (c <=? 0x5A))%N eqn:E; [|reflexivity].
  apply andb_true_iff in E. destruct E as [Hlo Hhi].
  apply N.leb_le in Hlo. apply N.leb_le in Hhi.
  assert (Hup : isspace c = false).
  { unfold isspace.
    rewrite (proj2 (N.leb_gt c 0x0D)), (proj2 (N.leb_gt c 0x20)),
      (proj2 (N.eqb_neq c 0x85)), (proj2 (N.eqb_neq c 0xA0)),
      (proj2 (N.eqb_neq c 0x1680)), (proj2 (N.leb_gt 0x2000 c)),
      (proj2 (N.eqb_neq c 0x2028)), (proj2 (N.eqb_neq c 0x2029)),
      (proj2 (N.eqb_neq c 0x202F)), (proj2 (N.eqb_neq c 0x205F)),
      (proj2 (N.eqb_neq c 0x3000)) by lia.
    now rewrite !andb_false_r. }
  rewrite Hup. unfold isspace.
  rewrite (proj2 (N.leb_gt (c + 0x20) 0x0D)), (proj2 (N.leb_gt (c + 0x20) 0x20)),
    (proj2 (N.eqb_neq (c + 0x20) 0x85)), (proj2 (N.eqb_neq (c + 0x20) 0xA0)),
    (proj2 (N.eqb_neq (c + 0x20) 0x1680)), (proj2 (N.leb_gt 0x2000 (c + 0x20))),
    (proj2 (N.eqb_neq (c + 0x20) 0x2028)), (proj2 (N.eqb_neq (c + 0x20) 0x2029)),
    (proj2 (N.eqb_neq (c + 0x20) 0x202F)), (proj2 (N.eqb_neq (c + 0x20) 0x205F)),
    (proj2 (N.eqb_neq (c + 0x20) 0x3000)) by lia.
  now rewrite !andb_false_r.
Qed.

Lemma ascii_lower_split (s : str) : forall cur : str,
  length (split_from (ascii_lower cur) (ascii_lower s))
  = length (split_from cur s).
Proof.
  induction s as [|c s IH]; intros cur.
  - simpl. destruct cur; reflexivity.
  - cbn [ascii_lower List.map split_from].
    rewrite ascii_lower_isspace.
    destruct (isspace c).
    + destruct cur as [|x cur]; cbn [ascii_lower List.map length].
      * apply (IH []).
      * f_equal. apply (IH []).
    + apply (IH (c :: cur)).
Qed.

Lemma ascii_lower_keeps_tokens : keeps_tokens ascii_lower.
Proof.
  intros s. unfold word_count, split. f_equal.
  apply (ascii_lower_split s []).
Qed.

Lemma word_count_nonneg (s : str) : (0 <= word_count s)%Z.
Proof. unfold word_count. lia. Qed.

Lemma py_max_Qmax (a b : Q) : py_max a b == Qmax a b.
Proof.
  unfold py_max. destruct (Qlt_le_dec a b) as [H|H].
  - symmetry. apply Q.max_r. now apply Qlt_le_weak.
  - symmetry. now apply Q.max_l.
Qed.

Lemma py_min_Qmin (a b : Q) : py_min a b == Qmin a b.
Proof.
  unfold py_min. destruct (Qlt_le_dec b a) as [H|H].
  - symmetry. apply Q.min_r. now apply Qlt_le_weak.
  - symmetry. now apply Q.min_l.
Qed.

Lemma py_max_ge_r (a b : Q) : b <= py_max a b.
Proof.
  unfold py_max. destruct (Qlt_le_dec a b); [apply Qle_refl|assumption].
Qed.

Lemma py_min_le_r (a b : Q) : py_min a b <= b.
Proof.
  unfold py_min. destruct (Qlt_le_dec b a); [apply Qle_refl|assumption].
Qed.

Lemma py_min_pos (a b : Q) : 0 < a -> 0 < b -> 0 < py_min a b.
Proof.
  unfold py_min. destruct (Qlt_le_dec b a); auto.
Qed.

(** The divisor of the confidence is at least 1: no division by zero. *)
Lemma divisor_ge_1 (p : playlist) :
  1 <= py_max (inject_Z (word_count (all_content p)) / 10) 1.
Proof. apply py_max_ge_r. Qed.

Lemma confidence_of_pos (m : Z) (p : playlist) :
  (0 < m)%Z -> 0 < confidence_of m p.
Proof.
  intros Hm. unfold confidence_of.
  apply py_min_pos; [|reflexivity].
  apply Qlt_shift_div_l.
  - apply Qlt_le_trans with 1; [reflexivity|apply divisor_ge_1].
  - rewrite Qmult_0_l. change 0 with (inject_Z 0). now rewrite <- Zlt_Qlt.
Qed.

Lemma confidence_of_le_1 (m : Z) (p : playlist) : confidence_of m p <= 1.
Proof. apply py_min_le_r. Qed.

Lemma confidence_of_spec (p : playlist) :
  confidence_of (spec_winning_score p) p
  == spec_confidence (word_count (spec_all_text p)) p.
Proof.
  unfold confidence_of, spec_confidence.
  rewrite py_min_Qmin, py_max_Qmax, all_content_text.
  reflexivity.
Qed.

(** A raw score is zero exactly when no keyword of the category is found
    in any bucket. *)
Lemma category_score_zero (info : category_info) (p : playlist) :
  category_score info p = 0%Z
  <-> forall kw, In kw (keywords info) ->
        matches kw (title_text p) = 0%Z
        /\ matches kw (description_text p) = 0%Z
        /\ matches kw (video_content p) = 0%Z.
Proof.
  rewrite category_score_sum.
  induction (keywords info) as [|k l IH]; simpl.
  - split; [intros _ kw []|reflexivity].
  - assert (Hl : (0 <= fold_right Z.add 0 (List.map (keyword_score p) l))%Z).
    { apply sum_nonneg, Forall_forall. intros v Hv.
      apply in_map_iff in Hv. destruct Hv as [kw [<- _]].
      apply keyword_score_nonneg. }
    pose proof (keyword_score_nonneg p k) as Hk.
    pose proof (matches_nonneg k (title_text p)).
    pose proof (matches_nonneg k (description_text p)).
    pose proof (matches_nonneg k (video_content p)).
    split.
    + intros Hsum kw [<-|Hin].
      * unfold keyword_score in *. lia.
      * apply IH; [lia|exact Hin].
    + intros Hall.
      destruct (Hall k (or_introl eq_refl)) as (Ht & Hd & Hv).
      assert (Hrest : fold_right Z.add 0%Z (List.map (keyword_score p) l) = 0%Z).
      { apply IH. intros kw Hin. apply Hall. now right. }
      rewrite Hrest. unfold keyword_score. lia.
Qed.

(** No keyword of the registry is empty or has a metacharacter: every
    one is a literal pattern of [re]. *)
Lemma registry_keywords_literal :
  forallb (fun e => forallb literal_pattern (keywords (snd e))) categories
  = true.
Proof. vm_compute. reflexivity. Qed.

Lemma registry_keyword_nonempty (c : str) (info : category_info) (kw : str) :
  In (c, info) categories -> In kw (keywords info) -> kw <> [].
Proof.
  intros Hc Hkw.
  pose proof registry_keywords_literal as H.
  rewrite forallb_forall in H. specialize (H _ Hc). simpl in H.
  rewrite forallb_forall in H. specialize (H _ Hkw).
  unfold literal_pattern in H. apply andb_true_iff in H.
  destruct H as [_ H]. apply negb_true_iff, str_eqb_neq in H. exact H.
Qed.

Lemma registry_entry_unique (c : str) (i1 i2 : category_info) :
  In (c, i1) categories -> In (c, i2) categories -> i1 = i2.
Proof.
  intros H1 H2.
  pose proof (lookup_In c i1 categories categories_keys_distinct H1) as L1.
  pose proof (lookup_In c i2 categories categories_keys_distinct H2) as L2.
  congruence.
Qed.

Lemma registry_key_not_uncategorized (c : str) (info : category_info) :
  In (c, info) categories -> c <> UNCATEGORIZED.
Proof.
  intros Hin ->. apply uncategorized_not_key.
  change UNCATEGORIZED with (fst (UNCATEGORIZED, info)). now apply in_map.
Qed.

Lemma winner_In (p : playlist) (c : str) (info : category_info) :
  winner p c info -> In (c, info) categories.
Proof. intros H. now apply first_argmax_In in H. Qed.

Lemma all_zero_winning_score (p : playlist) :
  (forall c info, In (c, info) categories -> category_score info p = 0%Z) ->
  spec_winning_score p = 0%Z.
Proof.
  intros Hall. unfold spec_winning_score. apply fold_max_zero.
  - apply Forall_forall. intros v Hv. apply in_map_iff in Hv.
    destruct Hv as [e [<- _]]. apply category_score_nonneg.
  - apply Forall_forall. intros v Hv. apply in_map_iff in Hv.
    destruct Hv as [[c info] [<- He]]. simpl. now apply (Hall c).
Qed.

(* ===================================================================== *)
(** ** Properties of [analyze_playlist_content]                           *)
(* ===================================================================== *)

(** C1: when every category has raw score zero, and so when no keyword
    of any category occurs in any of the three buckets, the analysis
    returns exactly [("Uncategorized", 0.0)]; and a category whose raw
    score is zero is never the category returned. *)
Theorem zero_score_never_wins (p : playlist) :
  ((forall c info, In (c, info) categories -> category_score info p = 0%Z) ->
   analyze_playlist_content p = (UNCATEGORIZED, 0))
  /\ ((forall c info kw, In (c, info) categories -> In kw (keywords info) ->
         occurrences kw (title_text p) = 0%nat
         /\ occurrences kw (description_text p) = 0%nat
         /\ occurrences kw (video_content p) = 0%nat) ->
      analyze_playlist_content p = (UNCATEGORIZED, 0))
  /\ (forall c info, In (c, info) categories -> category_score info p = 0%Z ->
        fst (analyze_playlist_content p) <> c).
Proof.
  assert (Hzero : (forall c info, In (c, info) categories ->
                     category_score info p = 0%Z) ->
                  analyze_playlist_content p = (UNCATEGORIZED, 0)).
  { intros Hall. apply all_zero_winning_score in Hall.
    destruct (analyze_cases p) as [[_ H]|[Hpos _]]; [exact H|lia]. }
  split; [exact Hzero|]. split.
  - intros Hocc. apply Hzero. intros c info Hc.
    apply category_score_zero. intros kw Hkw.
    pose proof (registry_keyword_nonempty Hc Hkw) as Hne.
    destruct (Hocc c info kw Hc Hkw) as (Ht & Hd & Hv).
    repeat split; now apply matches_zero_iff.
  - intros c info Hc Hscore.
    destruct (analyze_cases p) as [[_ H]|(Hpos & c' & info' & Hwin & Hm & H)];
      rewrite H; simpl.
    + intros Heq. now apply (registry_key_not_uncategorized Hc).
    + intros ->. apply winner_In in Hwin.
      rewrite (registry_entry_unique Hc Hwin) in Hscore. lia.
Qed.

(** C2: with a non-zero winning raw score the confidence returned is
    [min(winning_score / max(word_count / 10, 1), 1.0)], where the word
    count is the number of whitespace tokens of the concatenation of the
    playlist's title, its description and the titles and descriptions of
    its videos (lower-cased, a space between them); as lower-casing
    keeps the tokens, this is the number of tokens of the title, of the
    description and of every video's title and description. *)
Theorem confidence_formula (p : playlist) :
  spec_winning_score p <> 0%Z ->
  snd (analyze_playlist_content p)
  == spec_confidence (word_count (spec_all_text p)) p
  /\ (keeps_tokens lower ->
      word_count (spec_all_text p) = spec_word_count p
      /\ snd (analyze_playlist_content p)
         == spec_confidence (spec_word_count p) p).
Proof.
  intros Hm.
  destruct (analyze_cases p) as [[H0 _]|(_ & c & info & _ & _ & H)];
    [contradiction|].
  rewrite H. cbn [snd].
  split; [apply confidence_of_spec|].
  intros Hlower. split; [now apply word_count_fields|].
  rewrite <- (word_count_fields p Hlower). apply confidence_of_spec.
Qed.

(** C3: the confidence returned lies in [[0.0, 1.0]], whatever the
    playlist, absent fields included. *)
Theorem confidence_in_unit_interval (p : playlist) :
  0 <= snd (analyze_playlist_content p)
  /\ snd (analyze_playlist_content p) <= 1.
Proof.
  destruct (analyze_cases p) as [[_ H]|(Hpos & c & info & _ & _ & H)];
    rewrite H; simpl.
  - split; discriminate.
  - split.
    + apply Qlt_le_weak. now apply confidence_of_pos.
    + apply confidence_of_le_1.
Qed.

(** C10: the confidence returned is strictly positive exactly when the
    category returned is not the sentinel, and the sentinel always comes
    with confidence [0.0]. *)
Theorem positive_confidence_iff_categorized (p : playlist) :
  (0 < snd (analyze_playlist_content p)
   <-> fst (analyze_playlist_content p) <> UNCATEGORIZED)
  /\ (fst (analyze_playlist_content p) = UNCATEGORIZED ->
      snd (analyze_playlist_content p) = 0).
Proof.
  destruct (analyze_cases p) as [[_ H]|(Hpos & c & info & Hwin & _ & H)];
    rewrite H; simpl.
  - split; [|reflexivity]. split; [discriminate|congruence].
  - apply winner_In, registry_key_not_uncategorized in Hwin.
    split; [|congruence]. split; [intros _; exact Hwin|].
    intros _. now apply confidence_of_pos.
Qed.

(** Passing over [k] characters is scanning the rest of the text. *)
Lemma findall_from_skipn (kw text : str) : forall k,
  findall_from kw k text = findall kw (skipn k text).
Proof.
  unfold findall. induction text as [|c text IH]; intros k.
  - now rewrite skipn_nil.
  - destruct k as [|k]; [reflexivity|]. simpl. apply IH.
Qed.

(** The scan, step by step: a match is recorded and the scan resumes
    after the matched text; otherwise it moves one character on. *)
Lemma findall_hit (kw text : str) :
  kw <> [] -> starts_with kw text = true ->
  findall kw text = kw :: findall kw (skipn (length kw) text).
Proof.
  intros Hkw Hstart. destruct text as [|c text].
  - destruct kw; [congruence|discriminate].
  - unfold findall at 1. simpl findall_from. rewrite Hstart.
    rewrite findall_from_skipn.
    destruct kw as [|k kw]; [congruence|].
    simpl. now rewrite Nat.sub_0_r.
Qed.

Lemma findall_miss (kw : str) (c : N) (text : str) :
  starts_with kw (c :: text) = false ->
  findall kw (c :: text) = findall kw text.
Proof.
  intros Hstart. unfold findall. simpl. now rewrite Hstart.
Qed.

(** C9, as the code has it: the raw score of a category is the
    non-negative weighted sum, title x 3 + description x 2 + body x 1
    over its keywords, of the matches that [re.findall] returns on the
    lowered bucket.  The matches are found by a left-to-right scan that
    resumes after each match, so they do not overlap: their number is at
    most the number of occurrences of the keyword as a substring, is zero
    exactly when the keyword does not occur, and is the number of
    occurrences for a keyword that cannot overlap itself. *)
Theorem raw_score_weighted_scan (p : playlist) (c : str) (info : category_info) :
  In (c, info) categories ->
  category_score info p = spec_raw_score matches info p
  /\ (0 <= category_score info p)%Z
  /\ forall kw, In kw (keywords info) -> forall text,
       (0 <= matches kw text <= Z.of_nat (occurrences kw text))%Z
       /\ (matches kw text = 0%Z <-> occurrences kw text = 0%nat)
       /\ (self_overlapping kw = false ->
           matches kw text = Z.of_nat (occurrences kw text))
       /\ (starts_with kw text = true ->
           findall kw text = kw :: findall kw (skipn (length kw) text))
       /\ (forall ch rest, text = ch :: rest ->
           starts_with kw text = false -> findall kw text = findall kw rest).
Proof.
  intros Hc. split; [|split].
  - rewrite category_score_sum. reflexivity.
  - apply category_score_nonneg.
  - intros kw Hkw text.
    pose proof (registry_keyword_nonempty Hc Hkw) as Hne.
    split; [|split; [|split; [|split]]].
    + split; [apply matches_nonneg|now apply matches_le_occurrences].
    + now apply matches_zero_iff.
    + intros Hself. now apply matches_eq_occurrences.
    + intros Hstart. now apply findall_hit.
    + intros ch rest -> Hstart. now apply findall_miss.
Qed.

(** The category returned, when it is not the sentinel, is the first
    category in registry order whose raw score is the largest: a tie is
    won by the category that comes first. *)
Lemma analyze_winner (p : playlist) (c : str) :
  fst (analyze_playlist_content p) = c -> c <> UNCATEGORIZED ->
  exists info, winner p c info.
Proof.
  destruct (analyze_cases p) as [[_ H]|(_ & c' & info & Hwin & _ & H)];
    rewrite H; simpl; intros <- Hne; [congruence|].
  now exists info.
Qed.

(* ===================================================================== *)
(** ** Grouping                                                           *)
(* ===================================================================== *)

Lemma lookup_dict_append {V : Type} (k c : str) (v : V) (d : dict (list V)) :
  lookup c (dict_append k v d)
  = if str_eqb c k then Some (get (lookup k d) [] ++ [v]) else lookup c d.
Proof.
  induction d as [|[k' g] d IH]; simpl.
  - destruct (str_eqb k c) eqn:E.
    + apply str_eqb_eq in E. subst. now rewrite str_eqb_refl.
    + apply str_eqb_neq in E. destruct (str_eqb c k) eqn:E'; [|reflexivity].
      apply str_eqb_eq in E'. congruence.
  - destruct (str_eqb k' k) eqn:Ek; simpl.
    + apply str_eqb_eq in Ek. subst k'.
      destruct (str_eqb k c) eqn:Ec.
      * apply str_eqb_eq in Ec. subst. now rewrite str_eqb_refl.
      * apply str_eqb_neq in Ec. destruct (str_eqb c k) eqn:E'; [|reflexivity].
        apply str_eqb_eq in E'. congruence.
    + rewrite IH. destruct (str_eqb k' c) eqn:Ec; [|reflexivity].
      apply str_eqb_eq in Ec. subst k'.
      apply str_eqb_neq in Ek.
      destruct (str_eqb c k) eqn:E'; [|reflexivity].
      apply str_eqb_eq in E'. congruence.
Qed.

Lemma keys_dict_append {V : Type} (k : str) (v : V) (d : dict (list V)) :
  List.map fst (dict_append k v d)
  = if in_dec str_eq_dec k (List.map fst d) then List.map fst d
    else List.map fst d ++ [k].
Proof.
  induction d as [|[k' g] d IH]; simpl; [reflexivity|].
  destruct (str_eqb k' k) eqn:Ek; simpl.
  - apply str_eqb_eq in Ek. subst.
    destruct (str_eq_dec k k); [reflexivity|congruence].
  - apply str_eqb_neq in Ek. rewrite IH.
    destruct (str_eq_dec k' k); [congruence|].
    destruct (in_dec str_eq_dec k (List.map fst d)); reflexivity.
Qed.

Lemma NoDup_dict_append {V : Type} (k : str) (v : V) (d : dict (list V)) :
  NoDup (List.map fst d) -> NoDup (List.map fst (dict_append k v d)).
Proof.
  intros Hnd. rewrite keys_dict_append.
  destruct (in_dec str_eq_dec k (List.map fst d)) as [Hin|Hin]; [exact Hnd|].
  apply NoDup_app; [exact Hnd|repeat constructor; easy|].
  intros x Hx [<-|[]]. contradiction.
Qed.

Lemma concat_dict_append {V : Type} (k : str) (v : V) (d : dict (list V)) :
  Permutation (concat (List.map snd (dict_append k v d)))
              (concat (List.map snd d) ++ [v]).
Proof.
  induction d as [|[k' g] d IH]; simpl; [reflexivity|].
  destruct (str_eqb k' k); simpl.
  - rewrite <- !app_assoc. apply Permutation_app_head.
    apply Permutation_app_comm.
  - rewrite <- app_assoc. now apply Permutation_app_head.
Qed.

Lemma groups_step (l : list playlist_info) (d : dict (list playlist_info))
    (i : playlist_info) :
  groups l d -> groups (l ++ [i]) (dict_append (category i) i d).
Proof.
  intros (Hnd & Hlook & Hperm). split; [|split].
  - now apply NoDup_dict_append.
  - intros c. rewrite lookup_dict_append. unfold members.
    rewrite filter_app. simpl.
    destruct (str_eqb c (category i)) eqn:E.
    + apply str_eqb_eq in E. subst c. rewrite str_eqb_refl.
      rewrite Hlook. unfold members.
      destruct (filter (fun i0 => str_eqb (category i0) (category i)) l);
        reflexivity.
    + apply str_eqb_neq in E.
      destruct (str_eqb (category i) c) eqn:E'.
      * apply str_eqb_eq in E'. congruence.
      * rewrite app_nil_r. apply Hlook.
  - rewrite concat_dict_append. now apply Permutation_app_tail.
Qed.

Lemma groups_loop (rest : list playlist_info) :
  forall (l : list playlist_info) (d : dict (list playlist_info)),
    groups l d ->
    groups (l ++ rest)
      (fold_left (fun acc i => dict_append (category i) i acc) rest d).
Proof.
  induction rest as [|i rest IH]; simpl; intros l d H.
  - now rewrite app_nil_r.
  - replace (l ++ i :: rest) with ((l ++ [i]) ++ rest)
      by (now rewrite <- app_assoc).
    apply IH. now apply groups_step.
Qed.

Lemma categorize_fold (data : snapshot) :
  categorize_playlists (Some data)
  = fold_left (fun acc i => dict_append (category i) i acc)
              (List.map make_info (playlists data)) [].
Proof.
  unfold categorize_playlists.
  generalize (@nil (str * list playlist_info)).
  induction (playlists data) as [|p l IH]; simpl; intros acc; [reflexivity|].
  apply IH.
Qed.

Lemma categorize_groups (data : snapshot) :
  groups (List.map make_info (playlists data))
         (categorize_playlists (Some data)).
Proof.
  rewrite categorize_fold.
  apply (@groups_loop (List.map make_info (playlists data)) [] []).
  split; [constructor|]. split; [reflexivity|constructor].
Qed.

Lemma groups_In (l : list playlist_info) (d : dict (list playlist_info))
    (c : str) (g : list playlist_info) :
  groups l d -> (In (c, g) d <-> g <> [] /\ g = members c l).
Proof.
  intros (Hnd & Hlook & _). split.
  - intros Hin. apply (lookup_In c g d Hnd) in Hin.
    rewrite Hlook in Hin. destruct (members c l); [discriminate|].
    inversion Hin. split; [discriminate|reflexivity].
  - intros [Hne ->]. apply lookup_Some_In. rewrite Hlook.
    destruct (members c l); [congruence|reflexivity].
Qed.

Lemma make_info_original (p : playlist) : original_data (make_info p) = p.
Proof.
  unfold make_info. destruct (analyze_playlist_content p). reflexivity.
Qed.

Lemma make_info_analysis (p : playlist) :
  (category (make_info p), confidence (make_info p))
  = analyze_playlist_content p.
Proof.
  unfold make_info. destruct (analyze_playlist_content p). reflexivity.
Qed.

Lemma make_info_video_count (p : playlist) :
  video_count (make_info p) = get (playlist_video_count p) 0%Z.
Proof.
  unfold make_info. destruct (analyze_playlist_content p). reflexivity.
Qed.

(** C4: the grouping is a partition of the scored playlists: the keys
    are distinct, a category is a key exactly when it has members, its
    group is the list of its members in input order, and the groups
    together hold every scored playlist once. *)
Theorem categorize_partition (data : snapshot) :
  let infos := List.map make_info (playlists data) in
  let categorized := categorize_playlists (Some data) in
  length infos = length (playlists data)
  /\ List.map original_data infos = playlists data
  /\ NoDup (List.map fst categorized)
  /\ (forall c g, In (c, g) categorized <-> g <> [] /\ g = members c infos)
  /\ (forall i, In i infos ->
        exists g, In (category i, g) categorized /\ In i g)
  /\ Permutation (concat (List.map snd categorized)) infos.
Proof.
  intros infos categorized.
  pose proof (categorize_groups data) as Hg.
  fold infos categorized in Hg.
  split; [apply length_map|]. split.
  { unfold infos. rewrite map_map.
    rewrite (map_ext _ (fun x => x)) by apply make_info_original.
    apply map_id. }
  split; [apply Hg|]. split; [intros c g; now apply groups_In|].
  split; [|apply Hg].
  intros i Hi. exists (members (category i) infos).
  assert (Hin : In i (members (category i) infos)).
  { apply filter_In. split; [exact Hi|apply str_eqb_refl]. }
  split; [|exact Hin].
  apply (groups_In (category i) (members (category i) infos) Hg).
  split; [|reflexivity].
  intros Hnil. rewrite Hnil in Hin. destruct Hin.
Qed.

(* ===================================================================== *)
(** ** The plan                                                           *)
(* ===================================================================== *)

Lemma plan_category_skip (pl : plan) (c : str) (g : list playlist_info) :
  str_eqb c UNCATEGORIZED = true -> plan_category pl (c, g) = pl.
Proof. intros H. unfold plan_category. now rewrite H. Qed.

Lemma plan_category_add (pl : plan) (c : str) (g : list playlist_info) :
  str_eqb c UNCATEGORIZED = false ->
  plan_category pl (c, g)
  = {| timestamp := timestamp pl;
       original_count := original_count pl;
       plan_categories := dict_set c (make_summary c g) (plan_categories pl);
       merge_suggestions := merge_suggestions pl ++ merge_rule (c, g);
       rename_suggestions := rename_suggestions pl ++ rename_rule (c, g);
       delete_suggestions := delete_suggestions pl |}.
Proof.
  intros H. unfold plan_category, merge_rule, rename_rule. rewrite H.
  cbn [fst snd].
  destruct (1 <? Z.of_nat (length g))%Z.
  - now rewrite app_nil_r.
  - destruct g as [|p [|q g]]; rewrite ?app_nil_r; try reflexivity.
    destruct (negb (str_eqb (title p) (suggested_name_of c)));
      rewrite ?app_nil_r; reflexivity.
Qed.

Lemma plan_category_loop (d : dict (list playlist_info)) : forall pl : plan,
  NoDup (List.map fst (plan_categories pl) ++ List.map fst d) ->
  fold_left plan_category d pl
  = {| timestamp := timestamp pl;
       original_count := original_count pl;
       plan_categories :=
         plan_categories pl
         ++ List.map (fun e => (fst e, make_summary (fst e) (snd e)))
                     (categorized_only d);
       merge_suggestions :=
         merge_suggestions pl ++ flat_map merge_rule (categorized_only d);
       rename_suggestions :=
         rename_suggestions pl ++ flat_map rename_rule (categorized_only d);
       delete_suggestions := delete_suggestions pl |}.
Proof.
  induction d as [|[c g] d IH]; intros pl Hnd.
  - cbn [fold_left categorized_only filter List.map flat_map].
    rewrite !app_nil_r. now destruct pl.
  - cbn [fold_left]. unfold categorized_only. cbn [filter fst].
    fold (categorized_only d).
    cbn [List.map fst] in Hnd.
    destruct (str_eqb c UNCATEGORIZED) eqn:E; cbn [negb].
    + rewrite plan_category_skip by exact E.
      apply IH. now apply NoDup_remove_1 in Hnd.
    + rewrite IH; rewrite (@plan_category_add pl c g E);
        cbn [timestamp original_count plan_categories merge_suggestions
             rename_suggestions delete_suggestions].
      * rewrite dict_set_fresh.
        -- cbn [List.map flat_map fst snd].
           now rewrite <- !app_assoc.
        -- apply NoDup_remove_2 in Hnd. intros Hin. apply Hnd.
           apply in_or_app. now left.
      * rewrite dict_set_fresh.
        -- rewrite map_app. cbn [List.map fst]. now rewrite <- app_assoc.
        -- apply NoDup_remove_2 in Hnd. intros Hin. apply Hnd.
           apply in_or_app. now left.
Qed.

Lemma plan_uncategorized_loop (l : list playlist_info) : forall pl : plan,
  fold_left plan_uncategorized l pl
  = {| timestamp := timestamp pl;
       original_count := original_count pl;
       plan_categories := plan_categories pl;
       merge_suggestions := merge_suggestions pl;
       rename_suggestions := rename_suggestions pl;
       delete_suggestions :=
         delete_suggestions pl ++ List.map make_delete (filter delete_rule l) |}.
Proof.
  induction l as [|p l IH]; intros pl.
  - cbn [fold_left filter List.map]. rewrite app_nil_r. now destruct pl.
  - cbn [fold_left filter]. rewrite IH.
    unfold plan_uncategorized, delete_rule.
    destruct (video_count p <=? 1)%Z;
      cbn [timestamp original_count plan_categories merge_suggestions
           rename_suggestions delete_suggestions List.map].
    + now rewrite <- app_assoc.
    + reflexivity.
Qed.

(** The plan in closed form: a summary, and the merge and rename rules,
    for each group but the sentinel's, in the order of the grouping;
    a delete suggestion for each small uncategorized playlist. *)
Lemma generate_plan_eq (now : str) (data : snapshot) :
  let categorized := categorize_playlists (Some data) in
  let infos := List.map make_info (playlists data) in
  generate_reorganization_plan now (Some data)
  = Some {| timestamp := now;
            original_count := total_playlists data;
            plan_categories :=
              List.map (fun e => (fst e, make_summary (fst e) (snd e)))
                       (categorized_only categorized);
            merge_suggestions :=
              flat_map merge_rule (categorized_only categorized);
            rename_suggestions :=
              flat_map rename_rule (categorized_only categorized);
            delete_suggestions :=
              List.map make_delete
                       (filter delete_rule (members UNCATEGORIZED infos)) |}.
Proof.
  intros categorized infos.
  pose proof (categorize_groups data) as (Hnd & Hlook & _).
  fold categorized infos in Hnd, Hlook.
  unfold generate_reorganization_plan. fold categorized.
  rewrite plan_category_loop by exact Hnd.
  cbn [timestamp original_count plan_categories merge_suggestions
       rename_suggestions delete_suggestions app].
  rewrite (Hlook UNCATEGORIZED).
  destruct (members UNCATEGORIZED infos) as [|i g]; [reflexivity|].
  rewrite plan_uncategorized_loop. reflexivity.
Qed.

Lemma sum_cons (x : Z) (l : list Z) : sum (x :: l) = (x + sum l)%Z.
Proof. rewrite !sum_fold_right. reflexivity. Qed.

Lemma NoDup_keys_filter {V : Type} (f : str * V -> bool) (d : dict V) :
  NoDup (List.map fst d) -> NoDup (List.map fst (filter f d)).
Proof.
  induction d as [|e d IH]; simpl; intros Hnd; [constructor|].
  inversion Hnd as [|? ? Hnotin Hnd']; subst.
  destruct (f e); simpl; [|now apply IH].
  constructor; [|now apply IH].
  intros Hin. apply Hnotin. apply in_map_iff in Hin.
  destruct Hin as [x [Hx Hin]]. apply filter_In in Hin.
  rewrite <- Hx. apply in_map. tauto.
Qed.

Lemma categorized_only_In (d : dict (list playlist_info)) (c : str)
    (g : list playlist_info) :
  In (c, g) (categorized_only d) <-> In (c, g) d /\ c <> UNCATEGORIZED.
Proof.
  unfold categorized_only. rewrite filter_In. simpl.
  rewrite negb_true_iff, str_eqb_neq. reflexivity.
Qed.

Lemma filter_keep_all {A : Type} (f : A -> bool) (l : list A) :
  (forall x, In x l -> f x = true) -> filter f l = l.
Proof.
  induction l as [|x l IH]; simpl; intros H; [reflexivity|].
  rewrite (H x) by now left. f_equal. apply IH. intros y Hy. apply H.
  now right.
Qed.

Lemma filter_keep_none {A : Type} (f : A -> bool) (l : list A) :
  (forall x, In x l -> f x = false) -> filter f l = [].
Proof.
  induction l as [|x l IH]; simpl; intros H; [reflexivity|].
  rewrite (H x) by now left. apply IH. intros y Hy. apply H. now right.
Qed.

(** Suggestions of a group carry the key of the group: selecting the
    suggestions of one key selects what its group produced. *)
Lemma filter_flat_map_key {V B : Type} (key : B -> str)
    (F : str * V -> list B) (d : dict V) (c : str) (g : V) :
  (forall e b, In b (F e) -> key b = fst e) ->
  NoDup (List.map fst d) -> In (c, g) d ->
  filter (fun b => str_eqb (key b) c) (flat_map F d) = F (c, g).
Proof.
  intros Hkey.
  assert (Hall : forall e, fst e = c ->
            filter (fun b => str_eqb (key b) c) (F e) = F e).
  { intros e He. apply filter_keep_all. intros b Hb.
    apply str_eqb_eq. rewrite (Hkey e b Hb). exact He. }
  assert (Hnone : forall e, fst e <> c ->
            filter (fun b => str_eqb (key b) c) (F e) = []).
  { intros e He. apply filter_keep_none. intros b Hb.
    apply str_eqb_neq. rewrite (Hkey e b Hb). exact He. }
  induction d as [|e d IH]; simpl; intros Hnd Hin; [easy|].
  inversion Hnd as [|? ? Hnotin Hnd']; subst.
  rewrite filter_app. destruct Hin as [->|Hin].
  - rewrite Hall by reflexivity.
    assert (Hrest : filter (fun b => str_eqb (key b) c) (flat_map F d) = []).
    { clear IH Hnd Hnd'. induction d as [|e d IHd]; [reflexivity|].
      simpl. rewrite filter_app. simpl in Hnotin.
      rewrite Hnone by tauto. apply IHd. tauto. }
    rewrite Hrest. apply app_nil_r.
  - rewrite Hnone.
    + now apply IH.
    + intros He. apply Hnotin. rewrite He.
      change c with (fst (c, g)). now apply in_map.
Qed.

Lemma merge_rule_key (e : str * list playlist_info) (m : merge_suggestion) :
  In m (merge_rule e) -> merge_category m = fst e.
Proof.
  unfold merge_rule. destruct (1 <? Z.of_nat (length (snd e)))%Z; [|easy].
  intros [<-|[]]. reflexivity.
Qed.

Lemma rename_rule_key (e : str * list playlist_info) (r : rename_suggestion) :
  In r (rename_rule e) -> rename_category r = fst e.
Proof.
  unfold rename_rule. destruct (1 <? Z.of_nat (length (snd e)))%Z; [easy|].
  destruct (snd e) as [|p [|q g]]; try easy.
  destruct (negb (str_eqb (title p) (suggested_name_of (fst e)))); [|easy].
  intros [<-|[]]. reflexivity.
Qed.

(** A category that some playlist is assigned is the sentinel or a key
    of the registry. *)
Lemma analyze_category (p : playlist) :
  fst (analyze_playlist_content p) = UNCATEGORIZED
  \/ exists info, In (fst (analyze_playlist_content p), info) categories.
Proof.
  destruct (analyze_cases p) as [[_ H]|(_ & c & info & Hwin & _ & H)];
    rewrite H; simpl; [now left|right].
  exists info. exact (winner_In Hwin).
Qed.

Lemma make_info_category (p : playlist) :
  category (make_info p) = fst (analyze_playlist_content p).
Proof.
  unfold make_info. destruct (analyze_playlist_content p). reflexivity.
Qed.

Lemma group_key_registered (data : snapshot) (c : str)
    (g : list playlist_info) :
  In (c, g) (categorize_playlists (Some data)) -> c <> UNCATEGORIZED ->
  exists info, In (c, info) categories
               /\ suggested_name_of c = suggested_name info.
Proof.
  intros Hin Hne.
  apply (groups_In c g (categorize_groups data)) in Hin.
  destruct Hin as [Hnil Hg].
  destruct g as [|i g]; [congruence|].
  assert (Hi : In i (members c (List.map make_info (playlists data))))
    by (rewrite <- Hg; now left).
  apply filter_In in Hi. destruct Hi as [Hi Hc].
  apply str_eqb_eq in Hc. apply in_map_iff in Hi.
  destruct Hi as [p [<- _]]. rewrite make_info_category in Hc.
  destruct (analyze_category p) as [Hu|[info Hinfo]]; [congruence|].
  rewrite Hc in Hinfo. exists info. split; [exact Hinfo|].
  unfold suggested_name_of.
  now rewrite (lookup_In c info categories categories_keys_distinct Hinfo).
Qed.

Lemma merges_for_group (now : str) (data : snapshot) (pl : plan) (c : str)
    (g : list playlist_info) :
  generate_reorganization_plan now (Some data) = Some pl ->
  In (c, g) (categorize_playlists (Some data)) -> c <> UNCATEGORIZED ->
  merges_for c pl = merge_rule (c, g)
  /\ renames_for c pl = rename_rule (c, g).
Proof.
  intros Hpl Hin Hne.
  rewrite generate_plan_eq in Hpl. inversion Hpl as [Heq]. clear Hpl Heq.
  pose proof (categorize_groups data) as (Hnd & _ & _).
  assert (Hnd' : NoDup (List.map fst
                   (categorized_only (categorize_playlists (Some data)))))
    by now apply NoDup_keys_filter.
  assert (Hin' : In (c, g) (categorized_only (categorize_playlists (Some data))))
    by now apply categorized_only_In.
  unfold merges_for, renames_for.
  cbn [merge_suggestions rename_suggestions].
  split.
  - apply (filter_flat_map_key merge_category merge_rule); auto.
    apply merge_rule_key.
  - apply (filter_flat_map_key rename_category rename_rule); auto.
    apply rename_rule_key.
Qed.

(** C5: a category with several members gets exactly one merge
    suggestion and no rename suggestion; a category with one member whose
    title is not the suggested name gets exactly one rename suggestion
    and no merge suggestion; a single member that already has the
    suggested name gets neither: no category gets both. *)
Theorem merge_rename_exclusive (now : str) (data : snapshot) :
  exists pl,
    generate_reorganization_plan now (Some data) = Some pl
    /\ forall c g,
         In (c, g) (categorize_playlists (Some data)) ->
         c <> UNCATEGORIZED ->
         (exists info, In (c, info) categories
                       /\ suggested_name_of c = suggested_name info)
         /\ ((1 < length g)%nat ->
             merges_for c pl = [make_merge c g] /\ renames_for c pl = [])
         /\ (forall p, g = [p] -> title p <> suggested_name_of c ->
             merges_for c pl = [] /\ renames_for c pl = [make_rename c p])
         /\ (forall p, g = [p] -> title p = suggested_name_of c ->
             merges_for c pl = [] /\ renames_for c pl = [])
         /\ (merges_for c pl = [] \/ renames_for c pl = []).
Proof.
  pose proof (generate_plan_eq now data) as Hpl. cbv zeta in Hpl.
  eexists. split; [exact Hpl|].
  intros c g Hin Hne.
  destruct (@merges_for_group now data _ c g Hpl Hin Hne) as [Hm Hr].
  rewrite Hm, Hr. unfold merge_rule, rename_rule. cbn [fst snd].
  split; [exact (@group_key_registered data c g Hin Hne)|].
  split; [|split; [|split]].
  - intros Hlen.
    destruct (Z.ltb_spec 1 (Z.of_nat (length g))); [split; reflexivity|lia].
  - intros p -> Htitle. cbn [length]. simpl Z.ltb.
    apply str_eqb_neq in Htitle. rewrite Htitle. split; reflexivity.
  - intros p -> Htitle. cbn [length]. simpl Z.ltb.
    apply str_eqb_eq in Htitle. rewrite Htitle. split; reflexivity.
  - destruct (1 <? Z.of_nat (length g))%Z; [now right|now left].
Qed.

(** C6: the delete suggestions are exactly one per uncategorized
    playlist of at most one video, each with the reason string; an
    uncategorized playlist with more videos gets none, and no merge or
    rename suggestion names the sentinel: playlists outside the
    uncategorized group never get a delete suggestion, and those inside
    never get another kind. *)
Theorem delete_only_small_uncategorized (now : str) (data : snapshot) :
  let infos := List.map make_info (playlists data) in
  exists pl,
    generate_reorganization_plan now (Some data) = Some pl
    /\ delete_suggestions pl
       = List.map make_delete
           (filter (fun i => (video_count i <=? 1)%Z)
                   (filter (fun i => str_eqb (category i) UNCATEGORIZED) infos))
    /\ Forall (fun s => delete_reason s = u "视频数量过少"
                        /\ (delete_video_count s <= 1)%Z)
              (delete_suggestions pl)
    /\ Forall (fun m => merge_category m <> UNCATEGORIZED)
              (merge_suggestions pl)
    /\ Forall (fun r => rename_category r <> UNCATEGORIZED)
              (rename_suggestions pl).
Proof.
  intros infos.
  pose proof (generate_plan_eq now data) as Hpl. cbv zeta in Hpl.
  eexists. split; [exact Hpl|].
  cbn [delete_suggestions merge_suggestions rename_suggestions].
  split; [reflexivity|]. split; [|split].
  - apply Forall_forall. intros s Hs. apply in_map_iff in Hs.
    destruct Hs as [i [<- Hi]]. apply filter_In in Hi.
    destruct Hi as [_ Hi]. unfold delete_rule in Hi.
    split; [reflexivity|]. simpl. lia.
  - apply Forall_forall. intros m Hm. apply in_flat_map in Hm.
    destruct Hm as [[c g] [He Hm]]. apply merge_rule_key in Hm.
    apply categorized_only_In in He. simpl in Hm. rewrite Hm. tauto.
  - apply Forall_forall. intros r Hr. apply in_flat_map in Hr.
    destruct Hr as [[c g] [He Hr]]. apply rename_rule_key in Hr.
    apply categorized_only_In in He. simpl in Hr. rewrite Hr. tauto.
Qed.

Lemma total_videos_groups (d : dict (list playlist_info)) :
  sum (List.map (fun e => total_videos (snd e)) d)
  = sum (List.map video_count (concat (List.map snd d))).
Proof.
  induction d as [|[c g] d IH]; [reflexivity|].
  cbn [List.map concat snd]. rewrite sum_cons, map_app, sum_app, IH.
  reflexivity.
Qed.

Lemma total_videos_split (d : dict (list playlist_info)) :
  NoDup (List.map fst d) ->
  (sum (List.map (fun e => total_videos (snd e)) (categorized_only d))
   + total_videos (get (lookup UNCATEGORIZED d) []))%Z
  = sum (List.map (fun e => total_videos (snd e)) d).
Proof.
  induction d as [|[c g] d IH]; intros Hnd; [reflexivity|].
  inversion Hnd as [|? ? Hnotin Hnd']; subst.
  specialize (IH Hnd').
  unfold categorized_only in *. cbn [filter fst lookup List.map snd].
  rewrite sum_cons.
  destruct (str_eqb c UNCATEGORIZED) eqn:E; cbn [negb get].
  - apply str_eqb_eq in E. subst c.
    apply lookup_None in Hnotin. rewrite Hnotin in IH.
    cbn [get] in IH. change (total_videos []) with 0%Z in IH. lia.
  - cbn [List.map snd]. rewrite sum_cons. lia.
Qed.

(** C7: the total video counts of the category summaries and the video
    counts of the uncategorized playlists add up to the video counts of
    the input playlists, an absent count being 0. *)
Theorem video_count_conservation (now : str) (data : snapshot) :
  exists pl,
    generate_reorganization_plan now (Some data) = Some pl
    /\ (sum (List.map (fun e => summary_total_videos (snd e))
                      (plan_categories pl))
        + sum (List.map video_count
                 (get (lookup UNCATEGORIZED
                              (categorize_playlists (Some data))) [])))%Z
       = sum (List.map (fun p => get (playlist_video_count p) 0%Z)
                       (playlists data)).
Proof.
  pose proof (generate_plan_eq now data) as Hpl. cbv zeta in Hpl.
  eexists. split; [exact Hpl|].
  cbn [plan_categories].
  pose proof (categorize_groups data) as (Hnd & _ & Hperm).
  rewrite map_map. cbn [snd summary_total_videos make_summary].
  fold (total_videos (get (lookup UNCATEGORIZED
                                  (categorize_playlists (Some data))) [])).
  rewrite total_videos_split by exact Hnd.
  rewrite total_videos_groups.
  rewrite (sum_perm (Permutation_map video_count Hperm)).
  rewrite map_map. f_equal. apply map_ext. apply make_info_video_count.
Qed.

Lemma generate_timestamp (now : str) (data : option snapshot) :
  generate_reorganization_plan now data
  = option_map (set_timestamp now) (generate_reorganization_plan [] data).
Proof.
  destruct data as [data|]; [|reflexivity].
  now rewrite !generate_plan_eq.
Qed.

(** C8: the plan depends on the clock through its timestamp only: two
    runs on the same snapshot give the same plan once the timestamp is
    set aside, the analysis does not read the clock at all, and a tie for
    the largest raw score is always won by the category that comes first
    in the registry. *)
Theorem plan_deterministic (now1 now2 : str) (data : option snapshot) :
  option_map (set_timestamp []) (generate_reorganization_plan now1 data)
  = option_map (set_timestamp []) (generate_reorganization_plan now2 data)
  /\ (forall pl, generate_reorganization_plan now1 data = Some pl ->
        timestamp pl = now1)
  /\ (forall p c, fst (analyze_playlist_content p) = c ->
        c <> UNCATEGORIZED ->
        exists info before after,
          categories = before ++ (c, info) :: after
          /\ (forall e, In e before ->
                (category_score (snd e) p < category_score info p)%Z)
          /\ (forall e, In e after ->
                (category_score (snd e) p <= category_score info p)%Z)).
Proof.
  split; [|split].
  - rewrite (generate_timestamp now1), (generate_timestamp now2).
    destruct (generate_reorganization_plan [] data); reflexivity.
  - intros pl. rewrite generate_timestamp.
    destruct (generate_reorganization_plan [] data); simpl; [|discriminate].
    intros H. inversion H. reflexivity.
  - intros p c Hc Hne.
    destruct (@analyze_winner p c Hc Hne) as (info & before & after & H).
    exists info, before, after. exact H.
Qed.

(* ===================================================================== *)
(** ** Further properties of the plan                                     *)
(* ===================================================================== *)

Lemma group_weight_concat (f : playlist_info -> Z)
    (d : dict (list playlist_info)) :
  sum (List.map (fun e => sum (List.map f (snd e))) d)
  = sum (List.map f (concat (List.map snd d))).
Proof.
  induction d as [|[c g] d IH]; [reflexivity|].
  cbn [List.map concat snd]. rewrite sum_cons, map_app, sum_app, IH.
  reflexivity.
Qed.

Lemma group_weight_split (f : playlist_info -> Z)
    (d : dict (list playlist_info)) :
  NoDup (List.map fst d) ->
  (sum (List.map (fun e => sum (List.map f (snd e))) (categorized_only d))
   + sum (List.map f (get (lookup UNCATEGORIZED d) [])))%Z
  = sum (List.map (fun e => sum (List.map f (snd e))) d).
Proof.
  induction d as [|[c g] d IH]; intros Hnd; [reflexivity|].
  inversion Hnd as [|? ? Hnotin Hnd']; subst.
  specialize (IH Hnd').
  unfold categorized_only in *. cbn [filter fst lookup List.map snd].
  rewrite sum_cons.
  destruct (str_eqb c UNCATEGORIZED) eqn:E; cbn [negb get].
  - apply str_eqb_eq in E. subst c.
    apply lookup_None in Hnotin. rewrite Hnotin in IH.
    cbn [get List.map] in IH. change (sum []) with 0%Z in IH. lia.
  - cbn [List.map snd]. rewrite sum_cons. lia.
Qed.

Lemma sum_ones {A : Type} (l : list A) :
  sum (List.map (fun _ => 1%Z) l) = Z.of_nat (length l).
Proof.
  induction l as [|x l IH]; [reflexivity|].
  cbn [List.map length]. rewrite sum_cons, IH. lia.
Qed.

(** X1: every playlist is counted once: the [playlists] counts of the
    summaries and the size of the uncategorized group add up to the
    number of playlists of the snapshot, whereas [original_count] is the
    total the snapshot states. *)
Theorem playlist_count_conservation (now : str) (data : snapshot) :
  exists pl,
    generate_reorganization_plan now (Some data) = Some pl
    /\ original_count pl = total_playlists data
    /\ (sum (List.map (fun e => summary_playlists (snd e))
                      (plan_categories pl))
        + Z.of_nat (length (get (lookup UNCATEGORIZED
                                   (categorize_playlists (Some data))) [])))%Z
       = Z.of_nat (length (playlists data)).
Proof.
  pose proof (generate_plan_eq now data) as Hpl. cbv zeta in Hpl.
  eexists. split; [exact Hpl|]. split; [reflexivity|].
  cbn [plan_categories].
  pose proof (categorize_groups data) as (Hnd & _ & Hperm).
  rewrite map_map. cbn [snd summary_playlists make_summary].
  rewrite <- (sum_ones (get _ _)).
  rewrite (map_ext (fun e : str * list playlist_info =>
                      Z.of_nat (length (snd e)))
                   (fun e => sum (List.map (fun _ => 1%Z) (snd e))))
    by (intros e; now rewrite sum_ones).
  rewrite (group_weight_split (fun _ => 1%Z)) by exact Hnd.
  rewrite group_weight_concat, sum_ones.
  rewrite (Permutation_length Hperm), length_map. reflexivity.
Qed.

Lemma plan_summary_origin (now : str) (data : snapshot) (pl : plan)
    (c : str) (s : category_summary) :
  generate_reorganization_plan now (Some data) = Some pl ->
  In (c, s) (plan_categories pl) ->
  exists g, In (c, g) (categorize_playlists (Some data))
            /\ c <> UNCATEGORIZED /\ s = make_summary c g.
Proof.
  intros Hpl Hin. rewrite generate_plan_eq in Hpl.
  inversion Hpl as [Heq]. clear Hpl. subst pl.
  cbn [plan_categories] in Hin. apply in_map_iff in Hin.
  destruct Hin as [[c' g] [Heq Hin]]. simpl in Heq.
  inversion Heq; subst. apply categorized_only_In in Hin.
  exists g. tauto.
Qed.

Lemma suggestion_origin (now : str) (data : snapshot) (pl : plan) (c : str)
    (g : list playlist_info) :
  generate_reorganization_plan now (Some data) = Some pl ->
  In (c, g) (categorize_playlists (Some data)) -> c <> UNCATEGORIZED ->
  (forall m, In m (merge_suggestions pl) -> merge_category m = c ->
     (1 < length g)%nat /\ m = make_merge c g)
  /\ (forall r, In r (rename_suggestions pl) -> rename_category r = c ->
        exists p, g = [p] /\ title p <> suggested_name_of c
                  /\ r = make_rename c p).
Proof.
  intros Hpl Hin Hne.
  destruct (@merges_for_group now data pl c g Hpl Hin Hne) as [Hm Hr].
  split.
  - intros m Hm_in Hcat.
    assert (H : In m (merges_for c pl)).
    { apply filter_In. split; [exact Hm_in|now apply str_eqb_eq]. }
    rewrite Hm in H. unfold merge_rule in H. cbn [fst snd] in H.
    destruct (Z.ltb_spec 1 (Z.of_nat (length g))); [|destruct H].
    destruct H as [<-|[]]. split; [lia|reflexivity].
  - intros r Hr_in Hcat.
    assert (H : In r (renames_for c pl)).
    { apply filter_In. split; [exact Hr_in|now apply str_eqb_eq]. }
    rewrite Hr in H. unfold rename_rule in H. cbn [fst snd] in H.
    destruct (1 <? Z.of_nat (length g))%Z; [destruct H|].
    destruct g as [|p [|q g]]; try destruct H.
    destruct (str_eqb (title p) (suggested_name_of c)) eqn:E; simpl in H;
      [destruct H|].
    destruct H as [<-|[]]. exists p. apply str_eqb_neq in E. tauto.
Qed.

(** X2: a summary and the suggestions of its category agree: the summary
    is never the sentinel's, counts its details, totals their video
    counts; a merge suggestion of the category names the summary's
    display name, lists the titles of the details in order and has the
    same total; a rename suggestion renames the only detail. *)
Theorem summaries_agree_with_suggestions (now : str) (data : snapshot) :
  exists pl,
    generate_reorganization_plan now (Some data) = Some pl
    /\ forall c s, In (c, s) (plan_categories pl) ->
         c <> UNCATEGORIZED
         /\ summary_playlists s
            = Z.of_nat (length (summary_playlist_details s))
         /\ (0 < summary_playlists s)%Z
         /\ summary_total_videos s
            = sum (List.map detail_video_count (summary_playlist_details s))
         /\ (forall m, In m (merge_suggestions pl) -> merge_category m = c ->
               merge_target_name m = summary_suggested_name s
               /\ merge_playlists_to_merge m
                  = List.map detail_title (summary_playlist_details s)
               /\ merge_total_videos m = summary_total_videos s)
         /\ (forall r, In r (rename_suggestions pl) -> rename_category r = c ->
               rename_suggested_name r = summary_suggested_name s
               /\ List.map detail_title (summary_playlist_details s)
                  = [rename_current_name r]
               /\ List.map detail_id (summary_playlist_details s)
                  = [rename_id r]).
Proof.
  pose proof (generate_plan_eq now data) as Hpl. cbv zeta in Hpl.
  eexists. split; [exact Hpl|].
  intros c s Hin.
  destruct (@plan_summary_origin now data _ c s Hpl Hin) as (g & Hg & Hne & ->).
  destruct (@suggestion_origin now data _ c g Hpl Hg Hne) as [Hm Hr].
  assert (Hnil : g <> []).
  { apply (groups_In c g (categorize_groups data)) in Hg. tauto. }
  cbn [make_summary summary_playlists summary_playlist_details
       summary_total_videos summary_suggested_name].
  split; [exact Hne|]. split; [now rewrite length_map|].
  split; [destruct g; [congruence|simpl; lia]|].
  split; [unfold total_videos; now rewrite map_map|].
  split.
  - intros m Hm_in Hcat. destruct (Hm m Hm_in Hcat) as [_ ->].
    cbn [make_merge merge_target_name merge_playlists_to_merge
         merge_total_videos].
    rewrite map_map. repeat split; reflexivity.
  - intros r Hr_in Hcat. destruct (Hr r Hr_in Hcat) as (p & -> & _ & ->).
    repeat split; reflexivity.
Qed.

Lemma rule_lengths (e : str * list playlist_info) :
  (length (merge_rule e) + length (rename_rule e) <= 1)%nat.
Proof.
  unfold merge_rule, rename_rule.
  destruct (1 <? Z.of_nat (length (snd e)))%Z; [simpl; lia|].
  destruct (snd e) as [|p [|q g]]; simpl; try lia.
  destruct (negb (str_eqb (title p) (suggested_name_of (fst e))));
    simpl; lia.
Qed.

Lemma rules_lengths (d : dict (list playlist_info)) :
  (length (flat_map merge_rule d) + length (flat_map rename_rule d)
   <= length d)%nat.
Proof.
  induction d as [|e d IH]; simpl; [lia|].
  rewrite !length_app. pose proof (rule_lengths e). lia.
Qed.

(** X3: the plan never suggests more than one action per category, nor
    an action without effect: a merge suggestion lists at least two
    playlists, a rename suggestion changes the name, each names a
    category that has a summary, and together they are at most as many
    as the summaries, which are at most as many as the registry's
    categories. *)
Theorem suggestions_bounded (now : str) (data : snapshot) :
  exists pl,
    generate_reorganization_plan now (Some data) = Some pl
    /\ Forall (fun m => (2 <= length (merge_playlists_to_merge m))%nat
                        /\ In (merge_category m) (plan_keys pl))
              (merge_suggestions pl)
    /\ Forall (fun r => rename_current_name r <> rename_suggested_name r
                        /\ In (rename_category r) (plan_keys pl))
              (rename_suggestions pl)
    /\ (length (merge_suggestions pl) + length (rename_suggestions pl)
        <= length (plan_categories pl))%nat
    /\ (length (plan_categories pl) <= length categories)%nat.
Proof.
  pose proof (generate_plan_eq now data) as Hpl. cbv zeta in Hpl.
  eexists. split; [exact Hpl|].
  unfold plan_keys.
  cbn [merge_suggestions rename_suggestions plan_categories].
  set (d := categorize_playlists (Some data)).
  assert (Hkeys : forall c g, In (c, g) (categorized_only d) ->
            In c (List.map fst
                    (List.map (fun e => (fst e, make_summary (fst e) (snd e)))
                              (categorized_only d)))).
  { intros c g Hin. rewrite map_map. simpl.
    change c with (fst (c, g)). now apply in_map. }
  split; [|split; [|split]].
  - apply Forall_forall. intros m Hm. apply in_flat_map in Hm.
    destruct Hm as [[c g] [He Hm]]. unfold merge_rule in Hm.
    cbn [fst snd] in Hm.
    destruct (Z.ltb_spec 1 (Z.of_nat (length g))); [|destruct Hm].
    destruct Hm as [<-|[]]. cbn [make_merge merge_playlists_to_merge
                                 merge_category].
    rewrite length_map. split; [lia|now apply (Hkeys c g)].
  - apply Forall_forall. intros r Hr. apply in_flat_map in Hr.
    destruct Hr as [[c g] [He Hr]]. unfold rename_rule in Hr.
    cbn [fst snd] in Hr.
    destruct (1 <? Z.of_nat (length g))%Z; [destruct Hr|].
    destruct g as [|p [|q g]]; try destruct Hr.
    destruct (str_eqb (title p) (suggested_name_of c)) eqn:E; simpl in Hr;
      [destruct Hr|].
    destruct Hr as [<-|[]]. apply str_eqb_neq in E.
    split; [exact E|now apply (Hkeys c [p])].
  - rewrite length_map. apply rules_lengths.
  - rewrite length_map, <- (length_map fst (categorized_only d)),
      <- (length_map fst categories).
    apply NoDup_incl_length.
    + apply NoDup_keys_filter. apply (categorize_groups data).
    + intros c Hc. apply in_map_iff in Hc. destruct Hc as [[c' g] [<- Hin]].
      apply categorized_only_In in Hin. destruct Hin as [Hin Hne].
      destruct (@group_key_registered data c' g Hin Hne) as (info & Hi & _).
      exact (in_map fst categories (c', info) Hi).
Qed.

Lemma filter_and {A : Type} (f g : A -> bool) (l : list A) :
  filter f (filter g l) = filter (fun x => g x && f x) l.
Proof.
  induction l as [|x l IH]; simpl; [reflexivity|].
  destruct (g x); simpl; [destruct (f x)|]; now rewrite IH.
Qed.

(** The keys of the grouping, in the order the loop creates them. *)
Lemma categorize_keys_loop (l : list playlist_info) :
  forall d : dict (list playlist_info),
    List.map fst (fold_left (fun acc i => dict_append (category i) i acc) l d)
    = List.map fst d
      ++ filter (fun c => negb (existsb (str_eqb c) (List.map fst d)))
                (distinct_in_order (List.map category l)).
Proof.
  induction l as [|i l IH]; intros d.
  - simpl. now rewrite app_nil_r.
  - cbn [fold_left List.map distinct_in_order]. rewrite IH.
    rewrite keys_dict_append.
    set (X := distinct_in_order (List.map category l)).
    set (c := category i).
    destruct (in_dec str_eq_dec c (List.map fst d)) as [Hin|Hin].
    + f_equal. cbn [filter].
      assert (Hex : existsb (str_eqb c) (List.map fst d) = true).
      { apply existsb_exists. exists c. split; [exact Hin|apply str_eqb_refl]. }
      rewrite Hex. cbn [negb]. rewrite filter_and.
      apply filter_ext. intros x.
      destruct (str_eqb x c) eqn:E; [|reflexivity].
      apply str_eqb_eq in E. subst x. now rewrite Hex.
    + rewrite <- app_assoc. f_equal. cbn [app filter].
      assert (Hex : existsb (str_eqb c) (List.map fst d) = false).
      { destruct (existsb (str_eqb c) (List.map fst d)) eqn:E; [|reflexivity].
        apply existsb_exists in E. destruct E as [k [Hk E]].
        apply str_eqb_eq in E. now subst k. }
      rewrite Hex. cbn [negb]. f_equal. rewrite filter_and.
      apply filter_ext. intros x. rewrite existsb_app. simpl.
      destruct (str_eqb x c), (existsb (str_eqb x) (List.map fst d));
        reflexivity.
Qed.

Lemma keys_categorized_only (d : dict (list playlist_info)) :
  List.map fst (categorized_only d)
  = filter (fun c => negb (str_eqb c UNCATEGORIZED)) (List.map fst d).
Proof.
  unfold categorized_only. induction d as [|[c g] d IH]; [reflexivity|].
  cbn [filter List.map fst].
  destruct (str_eqb c UNCATEGORIZED); cbn [negb List.map fst]; now rewrite IH.
Qed.

Lemma merge_categories_of (infos : list playlist_info)
    (d : dict (list playlist_info)) :
  (forall c g, In (c, g) d -> g = members c infos) ->
  List.map merge_category (flat_map merge_rule d)
  = filter (fun c => (1 <? Z.of_nat (length (members c infos)))%Z)
           (List.map fst d)
  /\ List.map rename_category (flat_map rename_rule d)
     = filter (fun c => match members c infos with
                        | [p] => negb (str_eqb (title p) (suggested_name_of c))
                        | _ => false
                        end)
              (List.map fst d).
Proof.
  induction d as [|[c g] d IH]; intros Hd; [split; reflexivity|].
  destruct IH as [IHm IHr].
  { intros c' g' Hin. apply Hd. now right. }
  assert (Hg : g = members c infos) by (apply Hd; now left).
  cbn [flat_map List.map fst filter]. rewrite !map_app, IHm, IHr.
  rewrite <- Hg. unfold merge_rule, rename_rule. cbn [fst snd].
  split.
  - destruct (1 <? Z.of_nat (length g))%Z; reflexivity.
  - destruct (Z.ltb_spec 1 (Z.of_nat (length g))) as [Hlt|Hge].
    + destruct g as [|p [|q g']]; simpl in Hlt; try lia; reflexivity.
    + destruct g as [|p [|q g']]; try reflexivity.
      destruct (negb (str_eqb (title p) (suggested_name_of c))); reflexivity.
Qed.

(** X4: the groups, the summaries and the suggestions come in the order
    in which their categories first appear in the input: the keys of the
    grouping are the distinct categories assigned, each at its first
    occurrence; the summaries are these without the sentinel; the merge
    and the rename suggestions follow the summaries' order. *)
Theorem plan_in_order_of_first_appearance (now : str) (data : snapshot) :
  let infos := List.map make_info (playlists data) in
  exists pl,
    generate_reorganization_plan now (Some data) = Some pl
    /\ List.map fst (categorize_playlists (Some data))
       = distinct_in_order
           (List.map (fun p => fst (analyze_playlist_content p))
                     (playlists data))
    /\ plan_keys pl
       = filter (fun c => negb (str_eqb c UNCATEGORIZED))
                (List.map fst (categorize_playlists (Some data)))
    /\ List.map merge_category (merge_suggestions pl)
       = filter (fun c => (1 <? Z.of_nat (length (members c infos)))%Z)
                (plan_keys pl)
    /\ List.map rename_category (rename_suggestions pl)
       = filter (fun c => match members c infos with
                          | [p] => negb (str_eqb (title p)
                                                 (suggested_name_of c))
                          | _ => false
                          end)
                (plan_keys pl).
Proof.
  intros infos.
  pose proof (generate_plan_eq now data) as Hpl. cbv zeta in Hpl.
  eexists. split; [exact Hpl|].
  unfold plan_keys.
  cbn [plan_categories merge_suggestions rename_suggestions].
  set (d := categorize_playlists (Some data)).
  assert (Hkeys : List.map fst
                    (List.map (fun e : str * list playlist_info =>
                                 (fst e, make_summary (fst e) (snd e)))
                              (categorized_only d))
                  = List.map fst (categorized_only d)).
  { rewrite map_map. reflexivity. }
  rewrite Hkeys.
  destruct (@merge_categories_of infos (categorized_only d)) as [Hm Hr].
  { intros c g Hin. apply categorized_only_In in Hin.
    destruct Hin as [Hin _].
    apply (groups_In c g (categorize_groups data)) in Hin. tauto. }
  split; [|split; [apply keys_categorized_only|split; assumption]].
  unfold d. rewrite categorize_fold, categorize_keys_loop.
  cbn [List.map app]. rewrite map_map.
  rewrite (map_ext (fun p => category (make_info p))
                   (fun p => fst (analyze_playlist_content p)))
    by apply make_info_category.
  apply filter_keep_all. reflexivity.
Qed.

(** X5: every scored playlist sits in the group of its category, carries
    the analysis of the playlist it was made from, and its category is
    the sentinel or a key of the registry, never anything else. *)
Theorem scored_playlists_valid (data : snapshot) :
  Forall
    (fun e =>
       (fst e = UNCATEGORIZED \/ In (fst e) (List.map fst categories))
       /\ Forall (fun i =>
                    category i = fst e
                    /\ (category i, confidence i)
                       = analyze_playlist_content (original_data i)
                    /\ In (original_data i) (playlists data))
                 (snd e))
    (categorize_playlists (Some data)).
Proof.
  apply Forall_forall. intros [c g] Hin. cbn [fst snd].
  assert (Hmem : g = members c (List.map make_info (playlists data))).
  { apply (groups_In c g (categorize_groups data)) in Hin. tauto. }
  assert (Hall : Forall (fun i =>
                    category i = c
                    /\ (category i, confidence i)
                       = analyze_playlist_content (original_data i)
                    /\ In (original_data i) (playlists data)) g).
  { apply Forall_forall. intros i Hi. rewrite Hmem in Hi.
    apply filter_In in Hi. destruct Hi as [Hi Hc].
    apply str_eqb_eq in Hc. apply in_map_iff in Hi.
    destruct Hi as [p [<- Hp]].
    rewrite make_info_original, make_info_analysis. tauto. }
  split; [|exact Hall].
  destruct (str_eq_dec c UNCATEGORIZED) as [->|Hne]; [now left|right].
  destruct (@group_key_registered data c g Hin Hne) as (info & Hi & _).
  exact (in_map fst categories (c, info) Hi).
Qed.

(* ===================================================================== *)
(** ** Further properties of the analysis                                 *)
(* ===================================================================== *)

(** X6: the confidence of a categorized playlist is 1.0 as soon as the
    winning score is at least a tenth of the number of words, and so for
    every text of at most ten words. *)
Theorem confidence_saturation (p : playlist) :
  fst (analyze_playlist_content p) <> UNCATEGORIZED ->
  let m := spec_winning_score p in
  let w := word_count (all_content p) in
  ((w <= 10 * m)%Z -> snd (analyze_playlist_content p) == 1)
  /\ ((w <= 10)%Z -> snd (analyze_playlist_content p) == 1).
Proof.
  intros Hcat m w.
  destruct (analyze_cases p) as [[_ H]|(Hpos & c & info & _ & _ & H)];
    rewrite H in *; cbn [fst snd] in Hcat |- *; [congruence|].
  fold m in Hpos |- *. unfold confidence_of. fold w.
  rewrite py_min_Qmin, py_max_Qmax.
  assert (HM : 1 <= inject_Z m).
  { change 1 with (inject_Z 1). rewrite <- Zle_Qle. lia. }
  assert (Hsat : (w <= 10 * m)%Z ->
                 Qmin (inject_Z m / Qmax (inject_Z w / 10) 1) 1 == 1).
  { intros Hw. apply Q.min_r.
    apply Qle_shift_div_l.
    - apply Qlt_le_trans with 1; [reflexivity|apply Q.le_max_r].
    - rewrite Qmult_1_l. apply Q.max_lub; [|exact HM].
      apply Qle_shift_div_r; [reflexivity|].
      change 10 with (inject_Z 10). rewrite <- inject_Z_mult, <- Zle_Qle.
      lia. }
  split; [exact Hsat|]. intros Hw. apply Hsat. lia.
Qed.

Lemma zero_winning_all_zero (p : playlist) :
  spec_winning_score p = 0%Z ->
  forall c info, In (c, info) categories -> category_score info p = 0%Z.
Proof.
  intros Hm c info Hin.
  pose proof (category_score_nonneg info p) as Hnn.
  assert (Hle : (category_score info p <= spec_winning_score p)%Z).
  { unfold spec_winning_score. apply fold_max_ge.
    apply in_map_iff. exists (c, info). now split. }
  lia.
Qed.

(** A playlist left uncategorized holds no keyword of the registry. *)
Lemma uncategorized_keyword_free (p : playlist) :
  fst (analyze_playlist_content p) = UNCATEGORIZED ->
  analyze_playlist_content p = (UNCATEGORIZED, 0)
  /\ forall c info kw,
       In (c, info) categories -> In kw (keywords info) ->
       occurrences kw (title_text p) = 0%nat
       /\ occurrences kw (description_text p) = 0%nat
       /\ occurrences kw (video_content p) = 0%nat.
Proof.
  intros Hcat.
  destruct (analyze_cases p) as [[Hm H]|(_ & c & info & Hwin & _ & H)].
  - split; [exact H|]. intros c info kw Hc Hkw.
    pose proof (zero_winning_all_zero p Hm Hc) as Hz.
    pose proof (registry_keyword_nonempty Hc Hkw) as Hne.
    destruct (proj1 (category_score_zero info p) Hz kw Hkw) as (Ht & Hd & Hv).
    repeat split; now apply matches_zero_iff.
  - rewrite H in Hcat. simpl in Hcat. apply winner_In in Hwin.
    now apply registry_key_not_uncategorized in Hwin.
Qed.

Lemma make_info_fields (p : playlist) :
  title (make_info p) = get (playlist_title p) []
  /\ info_id (make_info p) = get (playlist_id p) []
  /\ video_count (make_info p) = get (playlist_video_count p) 0%Z.
Proof.
  unfold make_info. destruct (analyze_playlist_content p). repeat split.
Qed.

Lemma delete_rule_small (i : playlist_info) :
  delete_rule i = true <-> (video_count i <= 1)%Z.
Proof. unfold delete_rule. lia. Qed.

Lemma make_delete_fields (i : playlist_info) :
  delete_title (make_delete i) = title i
  /\ delete_id (make_delete i) = info_id i
  /\ delete_video_count (make_delete i) = video_count i.
Proof. repeat split. Qed.

(** X7: a delete suggestion is always about a playlist of the snapshot
    that has at most one video and in whose title, description and video
    texts no keyword of the registry occurs; it repeats the playlist's
    title, id and video count. *)
Theorem deletes_are_keyword_free (now : str) (data : snapshot) :
  exists pl,
    generate_reorganization_plan now (Some data) = Some pl
    /\ Forall
         (fun s =>
            exists p,
              In p (playlists data)
              /\ delete_title s = get (playlist_title p) []
              /\ delete_id s = get (playlist_id p) []
              /\ delete_video_count s = get (playlist_video_count p) 0%Z
              /\ (delete_video_count s <= 1)%Z
              /\ analyze_playlist_content p = (UNCATEGORIZED, 0)
              /\ forall c info kw,
                   In (c, info) categories -> In kw (keywords info) ->
                   occurrences kw (title_text p) = 0%nat
                   /\ occurrences kw (description_text p) = 0%nat
                   /\ occurrences kw (video_content p) = 0%nat)
         (delete_suggestions pl).
Proof.
  pose proof (generate_plan_eq now data) as Hpl. cbv zeta in Hpl.
  eexists. split; [exact Hpl|].
  cbn [delete_suggestions]. apply Forall_forall. intros s Hs.
  apply in_map_iff in Hs. destruct Hs as [i [<- Hi]].
  apply filter_In in Hi. destruct Hi as [Hi Hsmall].
  apply filter_In in Hi. destruct Hi as [Hi Hc].
  apply str_eqb_eq in Hc. apply in_map_iff in Hi.
  destruct Hi as [p [<- Hp]].
  rewrite make_info_category in Hc.
  destruct (uncategorized_keyword_free p Hc) as [Han Hfree].
  destruct (make_info_fields p) as (Ht & Hid & Hvc).
  apply delete_rule_small in Hsmall.
  destruct (make_delete_fields (make_info p)) as (Hdt & Hdi & Hdv).
  exists p. rewrite Hdt, Hdi, Hdv, Ht, Hid, <- Hvc.
  split; [exact Hp|]. split; [reflexivity|]. split; [reflexivity|].
  split; [reflexivity|]. split; [exact Hsmall|].
  split; [exact Han|exact Hfree].
Qed.

(* ===================================================================== *)
(** ** [analyze_playlists] of the playlist manager                        *)
(* ===================================================================== *)

Lemma required_None {A B : Type} (f : A -> option B) (l : list A) :
  required f l = None <-> exists x, In x l /\ f x = None.
Proof.
  induction l as [|x l IH]; simpl.
  - split; [discriminate|intros [x [[] _]]].
  - destruct (f x) eqn:E; simpl.
    + destruct (required f l) eqn:R; simpl.
      * split; [discriminate|]. intros [y [[<-|Hy] Hf]]; [congruence|].
        assert (H : @None (list B) = None) by reflexivity.
        enough (Hn : Some l0 = None) by discriminate.
        apply IH. now exists y.
      * split; [|reflexivity]. intros _.
        destruct (proj1 IH eq_refl) as [y [Hy Hf]]. exists y. tauto.
    + split; [|reflexivity]. intros _. exists x. tauto.
Qed.

Lemma required_Some {A B : Type} (f : A -> option B) (l : list A)
    (vs : list B) :
  required f l = Some vs -> List.map f l = List.map Some vs.
Proof.
  revert vs. induction l as [|x l IH]; simpl; intros vs H.
  - inversion H. reflexivity.
  - destruct (f x) eqn:E; simpl in H; [|discriminate].
    destruct (required f l) eqn:R; simpl in H; [|discriminate].
    inversion H. simpl. f_equal. now apply IH.
Qed.

Lemma required_total {A B : Type} (f : A -> option B) (l : list A) :
  (forall x, In x l -> f x <> None) -> exists vs, required f l = Some vs.
Proof.
  intros H. destruct (required f l) eqn:R; [now exists l0|].
  apply required_None in R. destruct R as [x [Hx Hf]].
  now apply H in Hx.
Qed.

Lemma collect_filter (test : Z -> bool) (l : list playlist) :
  forall found,
    (forall p, In p l -> playlist_video_count p <> None) ->
    collect test l found = Some (found ++ filter (count_is test) l).
Proof.
  induction l as [|p l IH]; intros found Hall; simpl.
  - now rewrite app_nil_r.
  - unfold count_is at 1.
    destruct (playlist_video_count p) as [n|] eqn:E; simpl.
    + rewrite IH by (intros q Hq; apply Hall; now right).
      destruct (test n); [now rewrite <- app_assoc|reflexivity].
    + exfalso. apply (Hall p); [now left|exact E].
Qed.

(** The duplicate loop flags the repeated titles. *)
Lemma find_duplicates_repeated (all : list playlist) (pts : list playlist) :
  forall i seen found,
    skipn i all = pts ->
    find_duplicates all (List.map lowered_title pts) i seen found
    = Some (found ++ repeated seen pts).
Proof.
  induction pts as [|p pts IH]; intros i seen found Hskip.
  - simpl. now rewrite app_nil_r.
  - cbn [List.map find_duplicates repeated].
    assert (Hnth : nth_error all i = Some p).
    { rewrite <- (firstn_skipn i all) at 1.
      assert (Hlen : (i <= length all)%nat).
      { destruct (Nat.le_gt_cases i (length all)) as [H|H]; [exact H|].
        rewrite skipn_all2 in Hskip by lia. discriminate. }
      rewrite nth_error_app2; rewrite length_firstn; [|lia].
      replace (i - Nat.min i (length all))%nat with 0%nat by lia.
      now rewrite Hskip. }
    assert (Hnext : skipn (S i) all = pts).
    { replace (S i) with (1 + i)%nat by lia.
      rewrite <- skipn_skipn, Hskip. reflexivity. }
    destruct (existsb (str_eqb (lowered_title p)) seen) eqn:E.
    + rewrite Hnth. cbn [bind]. rewrite (IH (S i)) by exact Hnext.
      now rewrite <- app_assoc.
    + now rewrite (IH (S i)) by exact Hnext.
Qed.

Lemma required_map {A B : Type} (f : A -> option B) (g : A -> B)
    (l : list A) :
  (forall x, In x l -> f x = Some (g x)) ->
  required f l = Some (List.map g l).
Proof.
  induction l as [|x l IH]; intros H; simpl; [reflexivity|].
  rewrite (H x) by now left. simpl.
  rewrite IH by (intros y Hy; apply H; now right). reflexivity.
Qed.

Lemma has_keys_fields (p : playlist) :
  has_keys p = true ->
  playlist_video_count p = Some (get (playlist_video_count p) 0%Z)
  /\ option_map lower (playlist_title p) = Some (lowered_title p).
Proof.
  unfold has_keys, lowered_title.
  destruct (playlist_video_count p), (playlist_title p); try discriminate.
  intros _. split; reflexivity.
Qed.

(** What [analyze_playlists] returns when no subscript raises. *)
Lemma analyze_playlists_eq (l : list playlist) :
  forallb has_keys l = true ->
  analyze_playlists l
  = Some
      {| analysis_total_playlists := Z.of_nat (length l);
         analysis_total_videos :=
           sum (List.map (fun p => get (playlist_video_count p) 0%Z) l);
         empty_playlists := filter (count_is (fun n => (n =? 0)%Z)) l;
         large_playlists := filter (count_is (fun n => (100 <? n)%Z)) l;
         duplicate_titles := repeated [] l;
         suggestions :=
           (match filter (count_is (fun n => (n =? 0)%Z)) l with
            | [] => []
            | _ => [u "发现 "
                      ++ decimal (length (filter (count_is (fun n => (n =? 0)%Z)) l))
                      ++ u " 个空播放列表，建议删除"]
            end)
           ++ (match filter (count_is (fun n => (100 <? n)%Z)) l with
               | [] => []
               | _ => [u "发现 "
                         ++ decimal (length (filter (count_is (fun n => (100 <? n)%Z)) l))
                         ++ u " 个大型播放列表，建议分割"]
               end)
           ++ (match repeated [] l with
               | [] => []
               | _ => [u "发现 " ++ decimal (length (repeated [] l))
                         ++ u " 个可能重复的播放列表标题"]
               end) |}.
Proof.
  intros Hkeys. rewrite forallb_forall in Hkeys.
  assert (Hvc : forall p, In p l -> playlist_video_count p <> None).
  { intros p Hp. destruct (has_keys_fields p (Hkeys p Hp)) as [H _].
    rewrite H. discriminate. }
  unfold analyze_playlists.
  rewrite (required_map playlist_video_count
             (fun p => get (playlist_video_count p) 0%Z))
    by (intros p Hp; apply (has_keys_fields p (Hkeys p Hp))).
  cbn [bind]. rewrite !collect_filter by exact Hvc. cbn [bind app].
  rewrite (required_map (fun p => option_map lower (playlist_title p))
             lowered_title)
    by (intros p Hp; apply (has_keys_fields p (Hkeys p Hp))).
  cbn [bind]. rewrite (@find_duplicates_repeated l l 0 [] [] eq_refl).
  reflexivity.
Qed.

Lemma has_keys_false (p : playlist) :
  has_keys p = false
  <-> playlist_video_count p = None \/ playlist_title p = None.
Proof.
  unfold has_keys.
  destruct (playlist_video_count p), (playlist_title p); split;
    try discriminate; try tauto; intros [H|H]; discriminate.
Qed.

Lemma analyze_playlists_raises (l : list playlist) :
  forallb has_keys l = false -> analyze_playlists l = None.
Proof.
  intros Hkeys.
  assert (Hex : exists p, In p l /\ has_keys p = false).
  { induction l as [|p l IH]; simpl in Hkeys; [discriminate|].
    destruct (has_keys p) eqn:E.
    - destruct (IH Hkeys) as [q [Hq Hk]]. exists q. split; [now right|exact Hk].
    - exists p. split; [now left|exact E]. }
  destruct Hex as [p [Hp Hk]]. apply has_keys_false in Hk.
  unfold analyze_playlists.
  destruct (required playlist_video_count l) as [counts|] eqn:R1;
    [|reflexivity].
  cbn [bind].
  assert (Hvc : forall q, In q l -> playlist_video_count q <> None).
  { intros q Hq Hn.
    assert (Hnone : required playlist_video_count l = None)
      by (apply required_None; now exists q).
    congruence. }
  rewrite !collect_filter by exact Hvc. cbn [bind].
  destruct Hk as [Hk|Hk]; [now apply Hvc in Hp|].
  assert (Hnone : required (fun q => option_map lower (playlist_title q)) l
                  = None).
  { apply required_None. exists p. split; [exact Hp|]. now rewrite Hk. }
  now rewrite Hnone.
Qed.

(** X8: [analyze_playlists] raises exactly when some playlist lacks the
    key [video_count] or the key [title]; the other keys are never
    read. *)
Theorem analyze_playlists_key_error (l : list playlist) :
  analyze_playlists l = None
  <-> exists p, In p l
                /\ (playlist_video_count p = None \/ playlist_title p = None).
Proof.
  destruct (forallb has_keys l) eqn:E.
  - rewrite (analyze_playlists_eq l E). split; [discriminate|].
    intros [p [Hp Hk]]. apply has_keys_false in Hk.
    rewrite forallb_forall in E. rewrite (E p Hp) in Hk. discriminate.
  - rewrite (analyze_playlists_raises l E). split; [|reflexivity].
    intros _. induction l as [|p l IH]; simpl in E; [discriminate|].
    destruct (has_keys p) eqn:Hk.
    + destruct (IH E) as [q [Hq H]]. exists q. split; [now right|exact H].
    + exists p. split; [now left|]. now apply has_keys_false.
Qed.

Lemma analyze_playlists_keys (l : list playlist) (a : analysis) :
  analyze_playlists l = Some a -> forallb has_keys l = true.
Proof.
  intros H. destruct (forallb has_keys l) eqn:E; [reflexivity|].
  rewrite (analyze_playlists_raises l E) in H. discriminate.
Qed.

Lemma filter_disjoint_length {A : Type} (f g : A -> bool) (l : list A) :
  (forall x, f x = true -> g x = false) ->
  (length (filter f l) + length (filter g l) <= length l)%nat.
Proof.
  intros H. induction l as [|x l IH]; simpl; [lia|].
  destruct (f x) eqn:Ef.
  - rewrite (H x Ef). simpl. lia.
  - destruct (g x); simpl; lia.
Qed.

(** X9: the findings of a successful analysis: the totals are the length
    of the list and the sum of the video counts; the empty playlists are
    those of video count 0 and the large ones those of more than 100
    videos, both in input order; no playlist is in both and together
    they are at most the whole list. *)
Theorem analyze_playlists_findings (l : list playlist) (a : analysis) :
  analyze_playlists l = Some a ->
  analysis_total_playlists a = Z.of_nat (length l)
  /\ analysis_total_videos a
     = sum (List.map (fun p => get (playlist_video_count p) 0%Z) l)
  /\ empty_playlists a
     = filter (fun p => match playlist_video_count p with
                        | Some n => (n =? 0)%Z
                        | None => false
                        end) l
  /\ large_playlists a
     = filter (fun p => match playlist_video_count p with
                        | Some n => (100 <? n)%Z
                        | None => false
                        end) l
  /\ (forall p, In p (empty_playlists a) -> ~ In p (large_playlists a))
  /\ (length (empty_playlists a) + length (large_playlists a)
      <= length l)%nat.
Proof.
  intros H. pose proof (analyze_playlists_keys l H) as Hkeys.
  rewrite (analyze_playlists_eq l Hkeys) in H. inversion H as [Ha]. clear H Ha.
  cbn [analysis_total_playlists analysis_total_videos empty_playlists
       large_playlists].
  split; [reflexivity|]. split; [reflexivity|].
  split; [reflexivity|]. split; [reflexivity|]. split.
  - intros p He Hl. apply filter_In in He. apply filter_In in Hl.
    destruct He as [_ He]. destruct Hl as [_ Hl]. unfold count_is in *.
    destruct (playlist_video_count p); [|discriminate]. lia.
  - apply filter_disjoint_length. intros p. unfold count_is.
    destruct (playlist_video_count p) as [n|]; [|reflexivity]. lia.
Qed.

Lemma existsb_same {A : Type} (f : A -> bool) (l1 l2 : list A) :
  (forall x, In x l1 <-> In x l2) -> existsb f l1 = existsb f l2.
Proof.
  intros H.
  destruct (existsb f l1) eqn:E1, (existsb f l2) eqn:E2; try reflexivity.
  - apply existsb_exists in E1. destruct E1 as [x [Hx Hf]].
    assert (E : existsb f l2 = true)
      by (apply existsb_exists; exists x; split; [now apply H|exact Hf]).
    congruence.
  - apply existsb_exists in E2. destruct E2 as [x [Hx Hf]].
    assert (E : existsb f l1 = true)
      by (apply existsb_exists; exists x; split; [now apply H|exact Hf]).
    congruence.
Qed.

Lemma repeated_snoc (l : list playlist) (p : playlist) : forall seen,
  repeated seen (l ++ [p])
  = repeated seen l
    ++ (if existsb (str_eqb (lowered_title p))
                   (rev (List.map lowered_title l) ++ seen)
        then [p] else []).
Proof.
  induction l as [|q l IH]; intros seen.
  - simpl. destruct (existsb (str_eqb (lowered_title p)) seen); reflexivity.
  - cbn [app repeated List.map rev]. rewrite IH, <- app_assoc. cbn [app].
    destruct (existsb (str_eqb (lowered_title q)) seen); reflexivity.
Qed.

Lemma repeated_count (l : list playlist) : forall seen,
  (length (repeated seen l)
   + length (filter (fun t => negb (existsb (str_eqb t) seen))
                    (distinct_in_order (List.map lowered_title l)))
   = length l)%nat.
Proof.
  induction l as [|p l IH]; intros seen; [reflexivity|].
  cbn [repeated List.map distinct_in_order filter length].
  specialize (IH (lowered_title p :: seen)).
  rewrite filter_and.
  rewrite (filter_ext
             (fun x => negb (str_eqb x (lowered_title p))
                       && negb (existsb (str_eqb x) seen))
             (fun t => negb (existsb (str_eqb t) (lowered_title p :: seen))))
    by (intros x; simpl; now destruct (str_eqb x (lowered_title p))).
  destruct (existsb (str_eqb (lowered_title p)) seen); cbn [negb length]; lia.
Qed.

(** X10: a playlist is reported as a duplicate exactly when its
    lower-cased title is the lower-cased title of an earlier playlist:
    extending the list by one playlist adds that playlist to the
    duplicates if its title was met before and changes nothing else; the
    duplicates are as many as the playlists beyond the first of each
    title. *)
Theorem duplicate_titles_repeats (l : list playlist) (p : playlist)
    (a' : analysis) :
  analyze_playlists (l ++ [p]) = Some a' ->
  exists a,
    analyze_playlists l = Some a
    /\ duplicate_titles a'
       = duplicate_titles a
         ++ (if existsb (str_eqb (lowered_title p))
                        (List.map lowered_title l)
             then [p] else [])
    /\ (length (duplicate_titles a')
        + length (distinct_in_order (List.map lowered_title (l ++ [p])))
        = length (l ++ [p]))%nat.
Proof.
  intros H. pose proof (analyze_playlists_keys _ H) as Hkeys.
  rewrite (analyze_playlists_eq _ Hkeys) in H. inversion H as [Ha]. clear H Ha.
  rewrite forallb_app in Hkeys. apply andb_true_iff in Hkeys.
  destruct Hkeys as [Hl _].
  eexists. split; [exact (analyze_playlists_eq l Hl)|].
  cbn [duplicate_titles]. split.
  - rewrite repeated_snoc, app_nil_r. f_equal.
    rewrite (existsb_same _ (rev (List.map lowered_title l))
               (List.map lowered_title l)); [reflexivity|].
    intros x. symmetry. apply in_rev.
  - pose proof (repeated_count (l ++ [p]) []) as Hc.
    rewrite filter_keep_all in Hc by reflexivity. exact Hc.
Qed.

(** X11: there is one suggestion for each kind of finding that is not
    empty, so at most three, and none exactly when the analysis found no
    empty, no large and no duplicate playlist. *)
Theorem suggestions_match_findings (l : list playlist) (a : analysis) :
  analyze_playlists l = Some a ->
  length (suggestions a)
  = (some_found (empty_playlists a) + some_found (large_playlists a)
     + some_found (duplicate_titles a))%nat
  /\ (suggestions a = []
      <-> empty_playlists a = [] /\ large_playlists a = []
          /\ duplicate_titles a = []).
Proof.
  intros H. pose proof (analyze_playlists_keys l H) as Hkeys.
  rewrite (analyze_playlists_eq l Hkeys) in H. inversion H as [Ha]. clear H Ha.
  cbn [suggestions empty_playlists large_playlists duplicate_titles].
  destruct (filter (count_is (fun n => (n =? 0)%Z)) l) as [|e es];
    destruct (filter (count_is (fun n => (100 <? n)%Z)) l) as [|g gs];
    destruct (repeated [] l) as [|r rs];
    cbn [app length some_found]; (split; [reflexivity|]);
    split; try discriminate; try tauto;
    intros (H1 & H2 & H3); discriminate.
Qed.

(* ===================================================================== *)
(** ** The manager's analysis and the organizer's plan                    *)
(* ===================================================================== *)

Lemma filter_perm {A : Type} (f : A -> bool) (l1 l2 : list A) :
  Permutation l1 l2 -> Permutation (filter f l1) (filter f l2).
Proof.
  induction 1 as [|x l1 l2 H IH|x y l|l1 l2 l3 H12 IH12 H23 IH23]; simpl.
  - constructor.
  - destruct (f x); [now constructor|exact IH].
  - destruct (f x), (f y); try reflexivity. constructor.
  - now transitivity (filter f l2).
Qed.

(** The totals of a plan, over videos and over playlists. *)
Lemma plan_totals (now : str) (data : snapshot) (pl : plan) :
  generate_reorganization_plan now (Some data) = Some pl ->
  let uncategorized :=
    get (lookup UNCATEGORIZED (categorize_playlists (Some data))) [] in
  (sum (List.map (fun e => summary_total_videos (snd e)) (plan_categories pl))
   + sum (List.map video_count uncategorized))%Z
  = sum (List.map (fun p => get (playlist_video_count p) 0%Z) (playlists data))
  /\ (sum (List.map (fun e => summary_playlists (snd e)) (plan_categories pl))
      + Z.of_nat (length uncategorized))%Z
     = Z.of_nat (length (playlists data)).
Proof.
  intros Hpl uncategorized. rewrite generate_plan_eq in Hpl.
  inversion Hpl as [Heq]. clear Hpl Heq.
  cbn [plan_categories].
  pose proof (categorize_groups data) as (Hnd & _ & Hperm).
  rewrite !map_map. cbn [snd summary_total_videos summary_playlists make_summary].
  unfold total_videos, uncategorized. split.
  - rewrite (group_weight_split video_count) by exact Hnd.
    rewrite group_weight_concat.
    rewrite (sum_perm (Permutation_map video_count Hperm)).
    rewrite map_map. f_equal. apply map_ext. apply make_info_video_count.
  - rewrite <- (sum_ones (get _ _)).
    rewrite (map_ext (fun e : str * list playlist_info =>
                        Z.of_nat (length (snd e)))
                     (fun e => sum (List.map (fun _ => 1%Z) (snd e))))
      by (intros e; now rewrite sum_ones).
    rewrite (group_weight_split (fun _ => 1%Z)) by exact Hnd.
    rewrite group_weight_concat, sum_ones.
    rewrite (Permutation_length Hperm), length_map. reflexivity.
Qed.

(** X12: on the same playlists the two tools agree: the manager's totals
    are those of the organizer's plan, summaries and uncategorized group
    together; every playlist the manager reports as empty and the
    organizer leaves uncategorized gets a delete suggestion; a playlist
    the manager reports as large never gets one. *)
Theorem manager_and_organizer_agree (now : str) (total : Z)
    (l : list playlist) (a : analysis) :
  analyze_playlists l = Some a ->
  let data := {| total_playlists := total; playlists := l |} in
  let uncategorized :=
    get (lookup UNCATEGORIZED (categorize_playlists (Some data))) [] in
  exists pl,
    generate_reorganization_plan now (Some data) = Some pl
    /\ analysis_total_videos a
       = (sum (List.map (fun e => summary_total_videos (snd e))
                        (plan_categories pl))
          + sum (List.map video_count uncategorized))%Z
    /\ analysis_total_playlists a
       = (sum (List.map (fun e => summary_playlists (snd e))
                        (plan_categories pl))
          + Z.of_nat (length uncategorized))%Z
    /\ (forall p, In p (empty_playlists a) ->
          fst (analyze_playlist_content p) = UNCATEGORIZED ->
          In (make_delete (make_info p)) (delete_suggestions pl))
    /\ (forall p, In p (large_playlists a) ->
          ~ In (make_delete (make_info p)) (delete_suggestions pl)).
Proof.
  intros Ha data uncategorized.
  pose proof (generate_plan_eq now data) as Hpl. cbv zeta in Hpl.
  eexists. split; [exact Hpl|].
  destruct (plan_totals Hpl) as [Hv Hn]. fold uncategorized in Hv, Hn.
  pose proof (analyze_playlists_keys l Ha) as Hkeys.
  rewrite (analyze_playlists_eq l Hkeys) in Ha. inversion Ha as [Heq].
  clear Ha Heq.
  cbn [analysis_total_videos analysis_total_playlists empty_playlists
       large_playlists].
  split; [now rewrite Hv|]. split; [now rewrite Hn|].
  cbn [delete_suggestions]. split.
  - intros p Hp Hcat. apply filter_In in Hp. destruct Hp as [Hp Hzero].
    apply in_map. apply filter_In. split.
    + apply filter_In. split; [now apply in_map|].
      apply str_eqb_eq. now rewrite make_info_category.
    + apply delete_rule_small. rewrite make_info_video_count.
      unfold count_is in Hzero.
      destruct (playlist_video_count p) as [n|]; [|discriminate].
      cbn [get]. lia.
  - intros p Hp Hin. apply filter_In in Hp. destruct Hp as [_ Hbig].
    apply in_map_iff in Hin. destruct Hin as [i [Heq Hi]].
    apply filter_In in Hi. destruct Hi as [_ Hsmall].
    apply delete_rule_small in Hsmall.
    assert (Hvc : video_count i = video_count (make_info p)).
    { destruct (make_delete_fields i) as (_ & _ & <-).
      destruct (make_delete_fields (make_info p)) as (_ & _ & <-).
      now rewrite Heq. }
    rewrite Hvc, make_info_video_count in Hsmall.
    unfold count_is in Hbig.
    destruct (playlist_video_count p) as [n|]; [|discriminate].
    cbn [get] in Hsmall. lia.
Qed.

Lemma categorized_members (d : dict (list playlist_info)) :
  (forall c g i, In (c, g) d -> In i g -> category i = c) ->
  concat (List.map snd (categorized_only d))
  = filter (fun i => negb (str_eqb (category i) UNCATEGORIZED))
           (concat (List.map snd d)).
Proof.
  induction d as [|[c g] d IH]; intros Hd; [reflexivity|].
  unfold categorized_only in *. cbn [filter fst List.map snd concat].
  rewrite filter_app, <- IH by (intros c' g' i H; apply Hd; now right).
  assert (Hg : forall i, In i g -> category i = c)
    by (intros i Hi; apply (Hd c g); [now left|exact Hi]).
  destruct (str_eqb c UNCATEGORIZED) eqn:E; cbn [negb List.map snd concat].
  - rewrite (filter_keep_none _ g); [reflexivity|].
    intros i Hi. now rewrite (Hg i Hi), E.
  - rewrite (filter_keep_all _ g); [reflexivity|].
    intros i Hi. now rewrite (Hg i Hi), E.
Qed.

Lemma details_of_categorized (l : list playlist) :
  List.map
    (fun p =>
       {| detail_title := get (playlist_title p) [];
          detail_video_count := get (playlist_video_count p) 0%Z;
          detail_confidence := round2 (snd (analyze_playlist_content p));
          detail_id := get (playlist_id p) [] |})
    (filter (fun p => negb (str_eqb (fst (analyze_playlist_content p))
                                    UNCATEGORIZED)) l)
  = List.map make_detail
      (filter (fun i => negb (str_eqb (category i) UNCATEGORIZED))
              (List.map make_info l)).
Proof.
  induction l as [|p l IH]; [reflexivity|].
  cbn [filter List.map]. rewrite make_info_category.
  destruct (negb (str_eqb (fst (analyze_playlist_content p)) UNCATEGORIZED));
    [|exact IH].
  cbn [List.map]. rewrite IH. f_equal.
  unfold make_detail, make_info.
  destruct (analyze_playlist_content p). reflexivity.
Qed.

(** X13: the detail records of the summaries cover the categorized
    playlists exactly: taken together they are, up to order, one detail
    per playlist that is not left uncategorized, with its title, id and
    video count and its confidence rounded; an uncategorized playlist has
    no detail. *)
Theorem details_cover_categorized (now : str) (data : snapshot) :
  exists pl,
    generate_reorganization_plan now (Some data) = Some pl
    /\ Permutation
         (concat (List.map (fun e => summary_playlist_details (snd e))
                           (plan_categories pl)))
         (List.map
            (fun p =>
               {| detail_title := get (playlist_title p) [];
                  detail_video_count := get (playlist_video_count p) 0%Z;
                  detail_confidence :=
                    round2 (snd (analyze_playlist_content p));
                  detail_id := get (playlist_id p) [] |})
            (filter (fun p => negb (str_eqb (fst (analyze_playlist_content p))
                                            UNCATEGORIZED))
                    (playlists data))).
Proof.
  pose proof (generate_plan_eq now data) as Hpl. cbv zeta in Hpl.
  eexists. split; [exact Hpl|].
  cbn [plan_categories].
  pose proof (categorize_groups data) as Hgroups.
  pose proof Hgroups as (_ & _ & Hperm).
  rewrite map_map. cbn [snd summary_playlist_details make_summary].
  rewrite <- (map_map snd (List.map make_detail)), <- concat_map.
  rewrite categorized_members.
  - rewrite details_of_categorized. apply Permutation_map.
    now apply filter_perm.
  - intros c g i Hin Hi.
    apply (groups_In c g Hgroups) in Hin. destruct Hin as [_ ->].
    apply filter_In in Hi. destruct Hi as [_ Hc]. now apply str_eqb_eq.
Qed.

Lemma sum_pos_element (l : list Z) :
  Forall (fun v => 0 <= v)%Z l -> (0 < fold_right Z.add 0 l)%Z ->
  exists v, In v l /\ (0 < v)%Z.
Proof.
  induction 1 as [|x l Hx Hl IH]; simpl; intros Hpos; [lia|].
  destruct (Z.ltb_spec 0 x) as [Hlt|Hge].
  - exists x. split; [now left|exact Hlt].
  - destruct IH as [v [Hv Hvpos]]; [lia|].
    exists v. split; [now right|exact Hvpos].
Qed.

(** X14: a playlist is categorized exactly when some keyword of the
    registry occurs in its lowered title, description or video text: one
    occurrence anywhere is enough, and nothing else can categorize it. *)
Theorem categorized_iff_keyword_occurs (p : playlist) :
  fst (analyze_playlist_content p) <> UNCATEGORIZED
  <-> exists c info kw,
        In (c, info) categories /\ In kw (keywords info)
        /\ (0 < occurrences kw (title_text p)
                + occurrences kw (description_text p)
                + occurrences kw (video_content p))%nat.
Proof.
  split.
  - intros Hcat.
    destruct (analyze_cases p) as [[_ H]|(Hpos & c & info & Hwin & Hm & _)];
      [rewrite H in Hcat; simpl in Hcat; congruence|].
    apply winner_In in Hwin. exists c, info.
    rewrite <- Hm, category_score_sum in Hpos.
    apply sum_pos_element in Hpos.
    + destruct Hpos as [v [Hv Hvpos]]. apply in_map_iff in Hv.
      destruct Hv as [kw [<- Hkw]]. exists kw.
      split; [exact Hwin|]. split; [exact Hkw|].
      pose proof (registry_keyword_nonempty Hwin Hkw) as Hne.
      pose proof (matches_le_occurrences (title_text p) Hne).
      pose proof (matches_le_occurrences (description_text p) Hne).
      pose proof (matches_le_occurrences (video_content p) Hne).
      unfold keyword_score in Hvpos. lia.
    + apply Forall_forall. intros v Hv. apply in_map_iff in Hv.
      destruct Hv as [kw [<- _]]. apply keyword_score_nonneg.
  - intros (c & info & kw & Hc & Hkw & Hocc) Hcat.
    destruct (uncategorized_keyword_free p Hcat) as [_ Hfree].
    destruct (Hfree c info kw Hc Hkw) as (Ht & Hd & Hv). lia.
Qed.

End Organizer.

(* ===================================================================== *)
(** ** The properties on sample inputs                                    *)
(* ===================================================================== *)

(** A playlist without any key scores zero everywhere. *)
Lemma zero_score_never_wins_witness :
  analyze_playlist_content ascii_lower bare_playlist = (UNCATEGORIZED, 0).
Proof.
  apply (proj1 (zero_score_never_wins ascii_lower bare_playlist)).
  intros c info Hin. vm_compute in Hin.
  repeat (destruct Hin as [Hin|Hin];
          [inversion Hin; subst; vm_compute; reflexivity|]).
  destruct Hin.
Defined.

(** Score 3 over forty-one words, forty of them in the videos: the
    confidence is 3 / (41 / 10). *)
Lemma confidence_formula_witness :
  spec_word_count video_playlist = 41%Z
  /\ snd (analyze_playlist_content ascii_lower video_playlist)
     == spec_confidence ascii_lower (spec_word_count video_playlist)
          video_playlist.
Proof.
  split; [vm_compute; reflexivity|].
  assert (Hm : spec_winning_score ascii_lower video_playlist <> 0%Z)
    by (vm_compute; discriminate).
  apply (proj2 (confidence_formula ascii_lower video_playlist Hm)
               ascii_lower_keeps_tokens).
Defined.

(** The words of the videos lower the confidence: without its videos the
    same playlist has confidence 1. *)
Example video_playlist_confidence :
  analyze_playlist_content ascii_lower video_playlist
  = (u "AI_Programming", 3 / (41 / 10))
  /\ 3 / (41 / 10) == 30 # 41
  /\ analyze_playlist_content ascii_lower (titled "ai" "" 4)
     = (u "AI_Programming", 1).
Proof. split; [|split]; [vm_compute| |vm_compute]; reflexivity. Qed.

Example long_playlist_confidence :
  analyze_playlist_content ascii_lower long_playlist
  = (u "AI_Programming", 3 / (40 / 10))
  /\ 3 / (40 / 10) == 3 # 4.
Proof. split; [vm_compute|]; reflexivity. Qed.

Lemma raw_score_weighted_scan_witness :
  exists info,
    In (u "AI_Programming", info) categories
    /\ category_score ascii_lower info long_playlist = 3%Z
    /\ category_score ascii_lower info long_playlist
       = spec_raw_score ascii_lower matches info long_playlist.
Proof.
  eexists. split; [left; reflexivity|]. split; [vm_compute; reflexivity|].
  apply (proj1 (@raw_score_weighted_scan ascii_lower long_playlist
                  (u "AI_Programming") _ (or_introl eq_refl))).
Defined.

(** [re.findall] returns one match of [gaming] in [gamingaming], where
    the keyword occurs twice: the raw score is 3, not 6. *)
Lemma overlapping_occurrences_not_counted :
  exists info,
    In (u "Gaming", info) categories
    /\ In (u "gaming") (keywords info)
    /\ title_text ascii_lower overlap_playlist = u "gamingaming"
    /\ findall (u "gaming") (u "gamingaming") = [u "gaming"]
    /\ matches (u "gaming") (title_text ascii_lower overlap_playlist) = 1%Z
    /\ occurrences (u "gaming") (title_text ascii_lower overlap_playlist)
       = 2%nat
    /\ category_score ascii_lower info overlap_playlist = 3%Z
    /\ spec_raw_score ascii_lower
         (fun kw text => Z.of_nat (occurrences kw text)) info overlap_playlist
       = 6%Z.
Proof.
  eexists. split; [do 3 right; left; reflexivity|].
  repeat split; vm_compute; tauto.
Qed.

(** The keywords of the registry that overlap themselves. *)
Example self_overlapping_keywords :
  filter self_overlapping (flat_map (fun e => keywords (snd e)) categories)
  = [u "health"; u "gaming"].
Proof. vm_compute. reflexivity. Qed.

(** The keywords are lower case already. *)
Example keywords_lower_case :
  forallb (fun kw => str_eqb (ascii_lower kw) kw)
          (flat_map (fun e => keywords (snd e)) categories) = true.
Proof. vm_compute. reflexivity. Qed.

(** The examples of the specification. *)
Example ai_coding_with_claude :
  category_scores ascii_lower (titled "AI Coding with Claude" "" 0)
  = [(u "AI_Programming", 9%Z); (u "Investment_Finance", 0%Z);
     (u "Health_Wellness", 0%Z); (u "Gaming", 0%Z);
     (u "Technology_Hardware", 0%Z); (u "Music_Relaxation", 0%Z);
     (u "Education_Learning", 0%Z)]
  /\ analyze_playlist_content ascii_lower (titled "AI Coding with Claude" "" 0)
     = (u "AI_Programming", 1).
Proof. split; vm_compute; reflexivity. Qed.

Example two_gaming_playlists_merge :
  option_map
    (fun pl => (List.map merge_playlists_to_merge (merge_suggestions pl),
                List.map merge_total_videos (merge_suggestions pl),
                rename_suggestions pl, delete_suggestions pl))
    (generate_reorganization_plan ascii_lower no_round (u "2024-01-01T00:00:00")
       (Some {| total_playlists := 3;
                playlists := [titled "game one" "" 5; titled "notes" "" 2;
                              titled "black myth wukong" "" 2] |}))
  = Some ([[u "game one"; u "black myth wukong"]], [7%Z], [], []).
Proof. vm_compute. reflexivity. Qed.

Example already_named_no_rename :
  option_map
    (fun pl => (List.map fst (plan_categories pl), merge_suggestions pl,
                rename_suggestions pl))
    (generate_reorganization_plan ascii_lower no_round (u "2024-01-01T00:00:00")
       (Some {| total_playlists := 1;
                playlists := [titled "🎵 音乐放松" "" 4] |}))
  = Some ([u "Music_Relaxation"], [], []).
Proof. vm_compute. reflexivity. Qed.

Example small_uncategorized_deleted :
  option_map
    (fun pl => (plan_categories pl, merge_suggestions pl,
                rename_suggestions pl, delete_suggestions pl))
    (generate_reorganization_plan ascii_lower no_round (u "2024-01-01T00:00:00")
       (Some {| total_playlists := 2;
                playlists := [titled "notes" "" 0; titled "misc" "" 2] |}))
  = Some ([], [], [],
          [{| delete_title := u "notes"; delete_video_count := 0;
              delete_reason := u "视频数量过少"; delete_id := u "PL1" |}]).
Proof. vm_compute. reflexivity. Qed.

Example empty_snapshot_plan :
  generate_reorganization_plan ascii_lower no_round (u "2024-01-01T00:00:00")
    (Some {| total_playlists := 7; playlists := [] |})
  = Some {| timestamp := u "2024-01-01T00:00:00"; original_count := 7;
            plan_categories := []; merge_suggestions := [];
            rename_suggestions := []; delete_suggestions := [] |}
  /\ generate_reorganization_plan ascii_lower no_round
       (u "2024-01-01T00:00:00") None = None.
Proof. split; vm_compute; reflexivity. Qed.

Example u_ascii : u "lo-fi" = [108; 111; 45; 102; 105]%N.
Proof. reflexivity. Qed.

Example u_cjk : u "加密" = [0x52A0; 0x5BC6]%N.
Proof. reflexivity. Qed.

Example u_emoji : u "🎵 音乐放松" = [0x1F3B5; 0x20; 0x97F3; 0x4E50; 0x653E; 0x677E]%N.
Proof. reflexivity. Qed.

Example split_ex : split (u "  ai  coding
 x ") = [u "ai"; u "coding"; u "x"].
Proof. reflexivity. Qed.

Example findall_ex : findall (u "ai") (u "ai rain aiai") = [u "ai"; u "ai"; u "ai"; u "ai"].
Proof. reflexivity. Qed.

Example findall_overlap : findall (u "aa") (u "aaaaa") = [u "aa"; u "aa"].
Proof. reflexivity. Qed.

(** The further properties on sample inputs. *)
Lemma confidence_saturation_witness :
  snd (analyze_playlist_content ascii_lower
         (titled "AI Coding with Claude" "" 0)) == 1.
Proof.
  assert (H : fst (analyze_playlist_content ascii_lower
                     (titled "AI Coding with Claude" "" 0))
              <> UNCATEGORIZED) by (vm_compute; discriminate).
  apply (proj2 (confidence_saturation ascii_lower
                  (titled "AI Coding with Claude" "" 0) H)).
  vm_compute. discriminate.
Defined.

Lemma analyze_playlists_findings_witness :
  exists a,
    analyze_playlists ascii_lower sample_playlists = Some a
    /\ analysis_total_playlists a = 3%Z
    /\ analysis_total_videos a = 155%Z
    /\ empty_playlists a = [titled "Mix" "" 0]
    /\ large_playlists a = [titled "Archive" "" 150].
Proof.
  eexists. split; [vm_compute; reflexivity|].
  match goal with
  | |- analysis_total_playlists ?a = _ /\ _ =>
      destruct (@analyze_playlists_findings ascii_lower sample_playlists a)
        as (H1 & H2 & H3 & H4 & _)
  end.
  - vm_compute. reflexivity.
  - rewrite H1, H2, H3, H4. repeat split.
Defined.

Lemma duplicate_titles_repeats_witness :
  exists a' a,
    analyze_playlists ascii_lower
      ([titled "Mix" "" 0; titled "Archive" "" 150] ++ [titled "MIX" "" 5])
    = Some a'
    /\ analyze_playlists ascii_lower
         [titled "Mix" "" 0; titled "Archive" "" 150] = Some a
    /\ duplicate_titles a = []
    /\ duplicate_titles a' = [titled "MIX" "" 5].
Proof.
  eexists.
  match goal with
  | |- exists a, analyze_playlists _ (?l ++ [?p]) = Some ?a' /\ _ =>
      assert (H : analyze_playlists ascii_lower (l ++ [p]) = Some a')
        by (vm_compute; reflexivity);
      destruct (@duplicate_titles_repeats ascii_lower l p a' H)
        as (a & Ha & Hd & _)
  end.
  exists a. split; [exact H|]. split; [exact Ha|].
  split.
  - vm_compute in Ha. inversion Ha. reflexivity.
  - reflexivity.
Defined.

Lemma suggestions_match_findings_witness :
  exists a,
    analyze_playlists ascii_lower sample_playlists = Some a
    /\ length (suggestions a) = 3%nat.
Proof.
  eexists. split; [vm_compute; reflexivity|].
  match goal with
  | |- length (suggestions ?a) = _ =>
      destruct (@suggestions_match_findings ascii_lower sample_playlists a)
        as (H1 & _)
  end.
  - vm_compute. reflexivity.
  - rewrite H1. reflexivity.
Defined.

Lemma manager_and_organizer_agree_witness :
  exists a pl,
    analyze_playlists ascii_lower sample_playlists = Some a
    /\ generate_reorganization_plan ascii_lower no_round
         (u "2024-01-01T00:00:00")
         (Some {| total_playlists := 3; playlists := sample_playlists |})
       = Some pl
    /\ In (make_delete (make_info ascii_lower (titled "Mix" "" 0)))
          (delete_suggestions pl).
Proof.
  eexists.
  match goal with
  | |- exists pl, analyze_playlists _ _ = Some ?a /\ _ =>
      assert (H : analyze_playlists ascii_lower sample_playlists = Some a)
        by (vm_compute; reflexivity);
      destruct (@manager_and_organizer_agree ascii_lower no_round
                  (u "2024-01-01T00:00:00") 3%Z sample_playlists a H)
        as (pl & Hpl & _ & _ & Hdel & _)
  end.
  exists pl. split; [exact H|]. split; [exact Hpl|].
  apply Hdel.
  - left. reflexivity.
  - vm_compute. reflexivity.
Defined.

Example sample_analysis_suggestions :
  option_map suggestions (analyze_playlists ascii_lower sample_playlists)
  = Some [u "发现 1 个空播放列表，建议删除";
          u "发现 1 个大型播放列表，建议分割";
          u "发现 1 个可能重复的播放列表标题"]
  /\ analyze_playlists ascii_lower [bare_playlist] = None
  /\ option_map suggestions (analyze_playlists ascii_lower []) = Some [].
Proof. split; [|split]; vm_compute; reflexivity. Qed.

